(** * The chat screen: conversation state and its two request handlers

    A shallow embedding of the [Chat] component (the chat page of the
    repository) and the properties of its request/response contract.

    The component owns five state variables and two asynchronous handlers,
    [handleInitialQuery] and [handleSubmit].  A handler is embedded as a
    program over the effects it performs (state setters, [Date.now()], the
    awaited [api.generate] call), written in the order of the source, and
    then run against an environment that supplies the backend's reply and
    the clock readings. *)

From Stdlib Require Import List ZArith NArith Bool Lia Sorted.
From Stdlib Require Import Ascii String DecimalString DecimalZ DecimalPos.
Import ListNotations.

(** ** JavaScript values used by the component *)

Module JS.

(** A JavaScript string is a sequence of UTF-16 code units. *)
Definition codeunit := N.
Definition jsstring := list codeunit.

(** A string literal of the source (all of them are ASCII). *)
Definition lit (s : string) : jsstring :=
  map N_of_ascii (list_ascii_of_string s).

(** The code units stripped by [String.prototype.trim]: ECMAScript's
    WhiteSpace (TAB, VT, FF, SP, NBSP, ZWNBSP and the Unicode space
    separators) and LineTerminator (LF, CR, LS, PS). *)
Definition isWhiteSpace (c : codeunit) : bool :=
  ((9 <=? c) && (c <=? 13)          (* TAB LF VT FF CR *)
   || (c =? 32)                     (* SP *)
   || (c =? 160)                    (* NBSP *)
   || (c =? 5760)                   (* U+1680 *)
   || ((8192 <=? c) && (c <=? 8202))  (* U+2000 .. U+200A *)
   || (c =? 8232) || (c =? 8233)    (* LS PS *)
   || (c =? 8239)                   (* U+202F *)
   || (c =? 8287)                   (* U+205F *)
   || (c =? 12288)                  (* U+3000 *)
   || (c =? 65279))%N.              (* U+FEFF *)

Fixpoint trimStart (s : jsstring) : jsstring :=
  match s with
  | [] => []
  | c :: s' => if isWhiteSpace c then trimStart s' else s
  end.

Definition trimEnd (s : jsstring) : jsstring := rev (trimStart (rev s)).

Definition trim (s : jsstring) : jsstring := trimEnd (trimStart s).

(** Truthiness of a string: every string but the empty one. *)
Definition truthy (s : jsstring) : bool :=
  match s with [] => false | _ :: _ => true end.

(** [a || b] on a possibly [undefined] string [a]. *)
Definition or_else (a : option jsstring) (b : jsstring) : jsstring :=
  match a with
  | Some s => if truthy s then s else b
  | None => b
  end.

(** Numbers.  The component only handles integers (millisecond
    timestamps and citation numbers), for which [+ 1] and
    [Number.prototype.toString] are exact integer addition and signed
    decimal printing below 2^53. *)
Definition toString (z : Z) : jsstring :=
  lit (NilZero.string_of_int (Z.to_int z)).

(** [needle] occurs in [hay]. *)
Definition includes (hay needle : jsstring) : Prop :=
  exists pre post, hay = pre ++ needle ++ post.

End JS.
Import JS.

(** ** The backend client *)

(** Modelled from the spec: the client wrapper [../services/api] (the
    [generate] operation, its request and response shapes and the two
    error classes [APIError] and [NetworkError]) is imported by the
    component but its declarations are not part of the sources.  The
    shapes are those of the spec's external interface:
    [{ query }] and an optional conversation identifier in,
    [{ conversation_id, answer, citations: [{ number, title?, url }] }]
    out. *)
Module api.

(** Modelled from the spec: a citation [{ number, title?, url }]; the
    declaration is missing from the sources. *)
Record Citation := {
  number : Z;
  title : option jsstring;      (* [title?]: may be undefined *)
  url : jsstring
}.

(** Modelled from the spec: the response
    [{ conversation_id, answer, citations }] of the generate operation;
    the declaration is missing from the sources. *)
Record GenerateResponse := {
  conversation_id : jsstring;
  answer : jsstring;
  citations : list Citation
}.

(** Modelled from the spec: the request [{ query }]; the declaration is
    missing from the sources. *)
Record GenerateRequest := { query : jsstring }.

(** Modelled from the spec: the error classes [APIError] and
    [NetworkError] are missing from the sources.  A thrown value is what
    [handleError]'s [instanceof] chain tells apart: the first class of
    the chain it is an instance of ([APIError], [NetworkError], any other
    [Error]), each with its [message], or no [Error] at all. *)
Inductive Thrown :=
| APIError (message : jsstring)
| NetworkError (message : jsstring)
| Error (message : jsstring)
| NonError.

(** One invocation [api.generate(request, conversationId)]; the second
    argument is [None] when it is [null] or left out. *)
Record Call := {
  request : GenerateRequest;
  conversation : option jsstring
}.

Inductive Outcome :=
| Resolved (response : GenerateResponse)
| Rejected (thrown : Thrown).

End api.

(** ** Data model (interfaces [Message] and [Source]) *)

Module MessageType.
Inductive t := user | assistant | error.
End MessageType.

Record Source := {
  title : jsstring;
  url : jsstring;
  site : jsstring;
  number : Z
}.

Record Message := {
  id : jsstring;
  type : MessageType.t;
  content : jsstring;
  sources : option (list Source)    (* [sources?] *)
}.

(** The state variables of [Chat], with their [useState] initial values. *)
Record ChatState := {
  messages : list Message;
  inputValue : jsstring;
  conversationId : option jsstring;
  loading : bool;
  error : option jsstring
}.

Definition initialState : ChatState :=
  {| messages := [];
     inputValue := lit "";
     conversationId := None;
     loading := false;
     error := None |}.

(** The state after each setter has been applied. *)
Definition with_messages (f : list Message -> list Message) (s : ChatState) :=
  {| messages := f (messages s); inputValue := inputValue s;
     conversationId := conversationId s; loading := loading s;
     error := error s |}.

Definition with_inputValue (v : jsstring) (s : ChatState) :=
  {| messages := messages s; inputValue := v;
     conversationId := conversationId s; loading := loading s;
     error := error s |}.

Definition with_conversationId (c : option jsstring) (s : ChatState) :=
  {| messages := messages s; inputValue := inputValue s;
     conversationId := c; loading := loading s; error := error s |}.

Definition with_loading (b : bool) (s : ChatState) :=
  {| messages := messages s; inputValue := inputValue s;
     conversationId := conversationId s; loading := b; error := error s |}.

Definition with_error (e : option jsstring) (s : ChatState) :=
  {| messages := messages s; inputValue := inputValue s;
     conversationId := conversationId s; loading := loading s; error := e |}.

(** ** Handler programs *)

(** The effects of a handler body: a state update, a clock reading, the
    awaited backend call, and abrupt completion with a thrown value. *)
Inductive Prog (A : Type) : Type :=
| Ret (a : A)
| Throw (e : api.Thrown)
| Update (u : ChatState -> ChatState) (k : Prog A)
| DateNow (k : Z -> Prog A)
| Generate (c : api.Call) (k : api.Outcome -> Prog A).

Arguments Ret {A} a.
Arguments Throw {A} e.
Arguments Update {A} u k.
Arguments DateNow {A} k.
Arguments Generate {A} c k.

Fixpoint bind {A B} (p : Prog A) (f : A -> Prog B) : Prog B :=
  match p with
  | Ret a => f a
  | Throw e => Throw e
  | Update u k => Update u (bind k f)
  | DateNow k => DateNow (fun t => bind (k t) f)
  | Generate c k => Generate c (fun o => bind (k o) f)
  end.

Declare Scope prog_scope.
Delimit Scope prog_scope with prog.
Bind Scope prog_scope with Prog.
Notation "x <- p ;; q" := (bind p (fun x => q))
  (at level 61, p at next level, right associativity) : prog_scope.
Notation "p ;; q" := (bind p (fun _ => q))
  (at level 61, right associativity) : prog_scope.
Open Scope prog_scope.

(** [try { p } catch (error) { h error }] *)
Fixpoint try_catch {A} (p : Prog A) (h : api.Thrown -> Prog A) : Prog A :=
  match p with
  | Ret a => Ret a
  | Throw e => h e
  | Update u k => Update u (try_catch k h)
  | DateNow k => DateNow (fun t => try_catch (k t) h)
  | Generate c k => Generate c (fun o => try_catch (k o) h)
  end.

(** [try { p } finally { q }]: [q] runs however [p] completes, and [p]'s
    completion is kept unless [q] itself throws. *)
Fixpoint finally {A} (p : Prog A) (q : Prog unit) : Prog A :=
  match p with
  | Ret a => q ;; Ret a
  | Throw e => q ;; Throw e
  | Update u k => Update u (finally k q)
  | DateNow k => DateNow (fun t => finally (k t) q)
  | Generate c k => Generate c (fun o => finally (k o) q)
  end.

Definition try_catch_finally {A} (p : Prog A) (h : api.Thrown -> Prog A)
    (q : Prog unit) : Prog A :=
  finally (try_catch p h) q.

(** The primitive commands. *)
Definition setMessages (l : list Message) : Prog unit :=
  Update (with_messages (fun _ => l)) (Ret tt).
Definition updateMessages (f : list Message -> list Message) : Prog unit :=
  Update (with_messages f) (Ret tt).
Definition setInputValue (v : jsstring) : Prog unit :=
  Update (with_inputValue v) (Ret tt).
Definition setConversationId (c : option jsstring) : Prog unit :=
  Update (with_conversationId c) (Ret tt).
Definition setLoading (b : bool) : Prog unit :=
  Update (with_loading b) (Ret tt).
Definition setError (e : option jsstring) : Prog unit :=
  Update (with_error e) (Ret tt).
Definition Date_now : Prog Z := DateNow (fun t => Ret t).

(** [await api.generate(request, conversationId)]: a rejected promise is
    thrown at the [await]. *)
Definition api_generate (q : api.GenerateRequest) (c : option jsstring)
    : Prog api.GenerateResponse :=
  Generate {| api.request := q; api.conversation := c |}
    (fun o => match o with
              | api.Resolved r => Ret r
              | api.Rejected e => Throw e
              end).

(** ** The component's handlers *)

(** [handleError]: the message shown for a thrown value; also stored in
    the [error] state variable. *)
Definition handleError (error : api.Thrown) : Prog jsstring :=
  let errorMessage := lit "An unexpected error occurred" in
  let errorMessage :=
    match error with
    | api.APIError message => lit "API Error: " ++ message
    | api.NetworkError message => lit "Network Error: " ++ message
    | api.Error message => message
    | api.NonError => errorMessage
    end in
  setError (Some errorMessage) ;;
  Ret errorMessage.

(** The arrow function mapped over [response.citations]; the same in both
    handlers. *)
Definition citationToSource (citation : api.Citation) : Source :=
  {| title := or_else (api.title citation)
                (lit "Source " ++ toString (api.number citation));
     url := api.url citation;
     site := lit "AsiaNxt";
     number := api.number citation |}.

Definition userMessageOf (t : Z) (text : jsstring) : Message :=
  {| id := toString t;
     type := MessageType.user;
     content := text;
     sources := None |}.

Definition aiMessageOf (t : Z) (response : api.GenerateResponse) : Message :=
  {| id := toString (t + 1);
     type := MessageType.assistant;
     content := api.answer response;
     sources := Some (map citationToSource (api.citations response)) |}.

Definition errorMsgOf (t : Z) (errorMessage : jsstring) : Message :=
  {| id := toString t;
     type := MessageType.error;
     content := errorMessage;
     sources := None |}.

(** [handleInitialQuery(query)].  The request carries no conversation
    identifier, and the transcript is set to the new messages. *)
Definition handleInitialQuery (query : jsstring) : Prog unit :=
  try_catch_finally
    (setLoading true ;;
     setError None ;;
     response <- api_generate {| api.query := query |} None ;;
     setConversationId (Some (api.conversation_id response)) ;;
     t1 <- Date_now ;;
     let userMessage := userMessageOf t1 query in
     t2 <- Date_now ;;
     let aiMessage := aiMessageOf t2 response in
     setMessages [userMessage; aiMessage])
    (fun error =>
       errorMessage <- handleError error ;;
       t <- Date_now ;;
       let errorMsg := errorMsgOf t errorMessage in
       setMessages [errorMsg])
    (setLoading false).

(** [handleSubmit(e)], as rendered from the state [r]: [inputValue],
    [loading] and [conversationId] are the values of that render, the
    transcript is extended by a functional update.  [e.preventDefault()]
    touches none of the state and is left out. *)
Definition handleSubmit (r : ChatState) : Prog unit :=
  if negb (truthy (trim (inputValue r))) || loading r then Ret tt else
  try_catch_finally
    (setLoading true ;;
     setError None ;;
     response <- api_generate {| api.query := inputValue r |}
                              (conversationId r) ;;
     t1 <- Date_now ;;
     let userMessage := userMessageOf t1 (inputValue r) in
     t2 <- Date_now ;;
     let aiMessage := aiMessageOf t2 response in
     updateMessages (fun prev => prev ++ [userMessage; aiMessage]) ;;
     setInputValue (lit "") ;;
     setConversationId (Some (api.conversation_id response)))
    (fun error =>
       errorMessage <- handleError error ;;
       t <- Date_now ;;
       let errorMsg := errorMsgOf t errorMessage in
       updateMessages (fun prev => prev ++ [errorMsg]))
    (setLoading false).

(** The effect on [location.state]: a truthy [initialQuery] is sent. *)
Definition useEffect_initialQuery (initialQuery : option jsstring) : Prog unit :=
  match initialQuery with
  | Some q => if truthy q then handleInitialQuery q else Ret tt
  | None => Ret tt
  end.

(** ** Running a handler *)

(** What the outside world answers during one run: the backend's outcome
    for a call, and the reading of the [n]-th [Date.now()] of the run. *)
Record Env := {
  reply : api.Call -> api.Outcome;
  now : nat -> Z
}.

Inductive Completion (A : Type) : Type :=
| Normal (a : A)
| Abrupt (e : api.Thrown).
Arguments Normal {A} a.
Arguments Abrupt {A} e.

Record Run (A : Type) := {
  completion : Completion A;
  final : ChatState;
  calls : list api.Call;      (* the generate calls made, oldest first *)
  reads : nat                 (* the number of clock readings taken *)
}.
Arguments completion {A} r.
Arguments final {A} r.
Arguments calls {A} r.
Arguments reads {A} r.

Fixpoint exec {A} (E : Env) (p : Prog A) (s : ChatState)
    (log : list api.Call) (n : nat) : Run A :=
  match p with
  | Ret a => {| completion := Normal a; final := s; calls := log; reads := n |}
  | Throw e => {| completion := Abrupt e; final := s; calls := log; reads := n |}
  | Update u k => exec E k (u s) log n
  | DateNow k => exec E (k (now E n)) s log (S n)
  | Generate c k => exec E (k (reply E c)) s (log ++ [c]) n
  end.

Definition run {A} (E : Env) (p : Prog A) (s : ChatState) : Run A :=
  exec E p s [] 0.

(** A submission from the state [s]: the handler of the render of [s],
    run on [s]. *)
Definition submit (E : Env) (s : ChatState) : Run unit :=
  run E (handleSubmit s) s.

(** The asynchronous view: a handler runs up to its [await], where the
    screen is left with a pending call and the rest of the body. *)
Inductive Stage (A : Type) : Type :=
| Settled (c : Completion A)
| Pending (c : api.Call) (k : api.Outcome -> Prog A).
Arguments Settled {A} c.
Arguments Pending {A} c k.

Fixpoint until_await {A} (E : Env) (p : Prog A) (s : ChatState) (n : nat)
    : Stage A * ChatState * nat :=
  match p with
  | Ret a => (Settled (Normal a), s, n)
  | Throw e => (Settled (Abrupt e), s, n)
  | Update u k => until_await E k (u s) n
  | DateNow k => until_await E (k (now E n)) s (S n)
  | Generate c k => (Pending c k, s, n)
  end.

(** An environment with a fixed outcome and the two readings a run takes. *)
Definition env (o : api.Outcome) (t1 t2 : Z) : Env :=
  {| reply := fun _ => o;
     now := fun n => match n with O => t1 | S _ => t2 end |}.

(** ** Sessions *)

(** What can happen to a mounted screen between two renders. *)
Inductive Event :=
| Navigate (initialQuery : option jsstring)  (* [location.state] changes; also the mount *)
| Change (value : jsstring)                  (* [onChange] of the input *)
| Submit.                                    (* [onSubmit] of the form *)

Definition handler (ev : Event) (s : ChatState) : Prog unit :=
  match ev with
  | Navigate initialQuery => useEffect_initialQuery initialQuery
  | Change value => setInputValue value
  | Submit => handleSubmit s
  end.

(** One event, handled to completion in its environment. *)
Definition step (s : ChatState) (t : Event * Env) : ChatState :=
  final (run (snd t) (handler (fst t) s) s).

Definition session_from (s : ChatState) (l : list (Event * Env)) : ChatState :=
  fold_left step l s.

Definition session (l : list (Event * Env)) : ChatState :=
  session_from initialState l.

(** ** Vocabulary of the properties *)

(** A blank query: empty, or white space only. *)
Definition isBlank (s : jsstring) : bool := forallb isWhiteSpace s.

(** The call [api.generate({ query: q }, c)]. *)
Definition generateCall (q : jsstring) (c : option jsstring) : api.Call :=
  {| api.request := {| api.query := q |}; api.conversation := c |}.

(** The message [handleError] computes. *)
Definition errorMessageOf (e : api.Thrown) : jsstring :=
  match e with
  | api.APIError message => lit "API Error: " ++ message
  | api.NetworkError message => lit "Network Error: " ++ message
  | api.Error message => message
  | api.NonError => lit "An unexpected error occurred"
  end.

(** The clock is spaced over a session: it does not run backwards between
    the two readings of one handler, and at least two milliseconds pass
    between the last reading of a handler and the first of the next. *)
Fixpoint spaced (start : Z) (l : list (Event * Env)) : Prop :=
  match l with
  | [] => True
  | (_, E) :: l' =>
      (start <= now E 0)%Z /\ (now E 0 <= now E 1)%Z /\
      spaced (now E 1 + 2) l'
  end.

(** The clock readings taken over a session are spaced: within a handler
    the second reading is not earlier than the first, and at least two
    milliseconds pass between the last reading of a handler and the first
    reading of the next handler that reads the clock.  Events that read
    no clock are not constrained.  [last] is the last reading taken so
    far, if any. *)
Definition later_than (last : option Z) (t : Z) : Prop :=
  match last with
  | None => True
  | Some t' => (t' + 2 <= t)%Z
  end.

Fixpoint readings_spaced (last : option Z) (s : ChatState)
    (l : list (Event * Env)) : Prop :=
  match l with
  | [] => True
  | (ev, E) :: l' =>
      let R := run E (handler ev s) s in
      match reads R with
      | O => readings_spaced last (final R) l'
      | S O =>
          later_than last (now E 0) /\
          readings_spaced (Some (now E 0)) (final R) l'
      | S (S _) =>
          later_than last (now E 0) /\ (now E 0 <= now E 1)%Z /\
          readings_spaced (Some (now E 1)) (final R) l'
      end
  end.

(** How a source stands to the citation it is derived from. *)
Definition derived_from (c : api.Citation) (x : Source) : Prop :=
  number x = api.number c /\
  url x = api.url c /\
  (api.title c = None \/ api.title c = Some (lit "") ->
   title x = lit "Source " ++ toString (api.number c)) /\
  (forall t, api.title c = Some t -> t <> lit "" -> title x = t).

(** Identifiers that are pairwise distinct, each the decimal of a number
    below [bound]. *)
Definition fresh_below (bound : Z) (ids : list jsstring) : Prop :=
  NoDup ids /\
  Forall (fun i => exists n, i = toString n /\ (n < bound)%Z) ids.

(** The identifiers on the transcript, given the last reading taken: none
    before the first reading, and afterwards distinct and at most the
    last reading plus one. *)
Definition recorded (last : option Z) (s : ChatState) : Prop :=
  match last with
  | None => messages s = []
  | Some t => fresh_below (t + 2) (map id (messages s))
  end.

(** ** Concrete runs used as examples *)

Definition t0 : Z := 1700000000000.

Definition sample_citations : list api.Citation :=
  [ {| api.number := 1; api.title := Some (lit "Annual report");
       api.url := lit "https://example.org/a" |};
    {| api.number := 2; api.title := None;
       api.url := lit "https://example.org/b" |} ].

Definition sample_response : api.GenerateResponse :=
  {| api.conversation_id := lit "c1";
     api.answer := lit "Here is the answer.";
     api.citations := sample_citations |}.

(** The backend answers [sample_response]; both clock readings agree. *)
Definition env_ok : Env := env (api.Resolved sample_response) t0 t0.

(** The backend rejects with an application error. *)
Definition env_rate_limited : Env :=
  env (api.Rejected (api.APIError (lit "rate limited"))) t0 t0.

(** A citation whose title is the empty string. *)
Definition citation_untitled : api.Citation :=
  {| api.number := 3; api.title := Some (lit "");
     api.url := lit "https://example.org/c" |}.

(** The idle screen after the user typed a question. *)
Definition typed_hello : ChatState := with_inputValue (lit "hello") initialState.

(** The same screen while its request is in flight. *)
Definition pending_hello : ChatState :=
  with_error None (with_loading true typed_hello).

(** The backend is unreachable. *)
Definition env_offline : Env :=
  env (api.Rejected (api.NetworkError (lit "offline"))) t0 t0.

(** A first exchange: the screen mounts without an initial query, the
    user types "hello" and submits, the backend answers with the
    conversation identifier "c1". *)
Definition first_exchange : list (Event * Env) :=
  [(Navigate None, env_ok); (Change (lit "hello"), env_ok); (Submit, env_ok)].

(** The clock ticks between the two readings of one submission. *)
Definition env_tick : Env := env (api.Resolved sample_response) 1000 1001.

(** Two exchanges whose readings are one millisecond apart. *)
Definition rapid_exchanges : list (Event * Env) :=
  [(Change (lit "a"), env_ok); (Submit, env_ok);
   (Change (lit "b"),
    env (api.Resolved sample_response) (t0 + 1) (t0 + 1));
   (Submit, env (api.Resolved sample_response) (t0 + 1) (t0 + 1))].

(** A session paced in seconds: an initial query, a follow-up whose two
    readings straddle a tick, and a failed request. *)
Definition paced_exchanges : list (Event * Env) :=
  [(Navigate (Some (lit "first")), env_ok);
   (Change (lit "b"),
    env (api.Resolved sample_response) (t0 + 500) (t0 + 500));
   (Submit, env (api.Resolved sample_response) (t0 + 1000) (t0 + 1001));
   (Change (lit "c"),
    env (api.Resolved sample_response) (t0 + 1500) (t0 + 1500));
   (Submit,
    env (api.Rejected (api.NetworkError (lit "offline")))
      (t0 + 2000) (t0 + 2000))].

(** ** The rendered screen *)

(** The element tree the component returns: host elements and components
    by name, with their key, their props and their children.  Children
    are as React takes them: an array of children is spliced in, a child
    that is [false] or [undefined] is left out, a number is its decimal
    text. *)
Module JSX.

Inductive PropValue :=
| Str (s : jsstring)
| Num (n : Z)
| Bool (b : bool)
| OnSubmit (h : Prog unit)               (* called with the submit event *)
| OnChange (h : jsstring -> Prog unit).  (* called with [e.target.value] *)

#[warnings="-register-all"]
Inductive Element :=
| text (s : jsstring)
| element (tag : string) (key : option jsstring)
    (props : list (string * PropValue)) (children : list Element).

(** An element without a key. *)
Definition el (tag : string) (props : list (string * PropValue))
    (children : list Element) : Element :=
  element tag None props children.

Definition className (s : jsstring) : string * PropValue :=
  ("className"%string, Str s).

(** [l.map((x, index) => f(x, index))] *)
Fixpoint mapi_from {A B} (i : nat) (f : A -> nat -> B) (l : list A) : list B :=
  match l with
  | [] => []
  | x :: l' => f x i :: mapi_from (S i) f l'
  end.

Definition mapi {A B} (f : A -> nat -> B) (l : list A) : list B :=
  mapi_from 0 f l.

(** The element and all the elements below it, in document order. *)
Fixpoint descendants (e : Element) : list Element :=
  e :: match e with
       | text _ => []
       | element _ _ _ children => flat_map descendants children
       end.

Definition tag_of (e : Element) : option string :=
  match e with
  | text _ => None
  | element tag _ _ _ => Some tag
  end.

Definition key_of (e : Element) : option jsstring :=
  match e with
  | text _ => None
  | element _ key _ _ => key
  end.

Definition has_tag (t : string) (e : Element) : bool :=
  match e with
  | text _ => false
  | element tag _ _ _ => String.eqb tag t
  end.

(** The elements with a given tag, in document order. *)
Definition by_tag (t : string) (e : Element) : list Element :=
  filter (has_tag t) (descendants e).

Fixpoint lookup (name : string) (props : list (string * PropValue))
    : option PropValue :=
  match props with
  | [] => None
  | (n, v) :: props' => if String.eqb n name then Some v else lookup name props'
  end.

Definition prop (name : string) (e : Element) : option PropValue :=
  match e with
  | text _ => None
  | element _ _ props _ => lookup name props
  end.

(** The text directly inside an element. *)
Definition own_text (e : Element) : list jsstring :=
  match e with
  | text _ => []
  | element _ _ _ children =>
      flat_map (fun c => match c with text s => [s] | _ => [] end) children
  end.

End JSX.
Import JSX.

(** One source card: the body of [message.sources.map((source, index) => ...)]. *)
Definition renderSource (source : Source) (index : nat) : Element :=
  element "a" (Some (toString (Z.of_nat index)))
    [("href"%string, Str (url source));
     ("target"%string, Str (lit "_blank"));
     ("rel"%string, Str (lit "noopener noreferrer"));
     className (lit "block bg-[#2D3135] rounded-lg p-4 hover:bg-[#363A3F] transition-colors")]
    [el "div" [className (lit "flex items-start gap-3")]
       [el "div"
          [className (lit "w-6 h-6 rounded-full bg-[#1A1D21] flex items-center justify-center text-sm text-gray-400")]
          [text (toString (number source))];
        el "div" []
          [el "h4" [className (lit "text-white font-medium mb-1")]
             [text (title source)];
           el "p" [className (lit "text-gray-400 text-sm")]
             [text (site source)]]]].

(** [message.sources && (...)]: nothing when the message has no sources. *)
Definition renderSources (sources : option (list Source)) : list Element :=
  match sources with
  | None => []
  | Some l =>
      [el "div" [className (lit "mt-4 space-y-2")]
         [el "h3" [className (lit "text-sm text-gray-400")]
            [text (lit "Sources:")];
          el "div" [className (lit "grid grid-cols-2 gap-4")]
            (mapi renderSource l)]]
  end.

Definition isType (m : Message) (t : MessageType.t) : bool :=
  match type m, t with
  | MessageType.user, MessageType.user => true
  | MessageType.assistant, MessageType.assistant => true
  | MessageType.error, MessageType.error => true
  | _, _ => false
  end.

(** One transcript entry: the body of [messages.map((message) => ...)]. *)
Definition renderMessage (message : Message) : Element :=
  element "div" (Some (id message))
    [className (lit "max-w-3xl mx-auto " ++
                (if isType message MessageType.user
                 then lit "text-white" else lit ""))]
    [el "div" [className (lit "flex items-start gap-4")]
       [el "div"
          [className (lit "w-8 h-8 rounded-full " ++
                      (if isType message MessageType.error
                       then lit "bg-red-500" else lit "bg-[#2D3135]") ++
                      lit " flex items-center justify-center")]
          [if isType message MessageType.user then text (lit "U")
           else if isType message MessageType.error
           then el "AlertCircle"
                  [("size"%string, Num 16); className (lit "text-white")] []
           else el "MessageSquare"
                  [("size"%string, Num 16); className (lit "text-cyan-400")] []];
        el "div" [className (lit "flex-1")]
          (el "div"
             [className (if isType message MessageType.error
                         then lit "text-red-400" else lit "text-white")]
             [text (content message)]
           :: renderSources (sources message))]].

(** The form at the bottom of the screen. *)
Definition renderForm (s : ChatState) : Element :=
  el "form"
    [("onSubmit"%string, OnSubmit (handleSubmit s));
     className (lit "max-w-3xl mx-auto")]
    [el "div" [className (lit "relative")]
       [el "input"
          [("type"%string, Str (lit "text"));
           ("value"%string, Str (inputValue s));
           ("onChange"%string, OnChange (fun value => setInputValue value));
           ("placeholder"%string, Str (lit "Ask a follow-up question..."));
           className (lit "w-full bg-[#2D3135] text-white rounded-xl py-4 px-6 pr-24 outline-none");
           ("disabled"%string, Bool (loading s))] [];
        el "button"
          [("type"%string, Str (lit "submit"));
           ("disabled"%string, Bool (loading s));
           className (lit "absolute right-2 top-1/2 -translate-y-1/2 bg-[#00A3A3] text-white rounded-lg px-4 py-2 flex items-center gap-2 hover:bg-[#00B3B3] transition-colors disabled:opacity-50")]
          [el "span" []
             [text (if loading s then lit "Sending..." else lit "Send")];
           el "ArrowUpRight" [("size"%string, Num 16)] []]]].

(** [loading && (...)]: nothing while no request is pending. *)
Definition renderSpinner (loading : bool) : list Element :=
  if loading
  then [el "div" [className (lit "flex justify-center")]
          [el "LoadingSpinner" [] []]]
  else [].

(** What [Chat] returns for the state [s]. *)
Definition render (s : ChatState) : Element :=
  el "PageTransition" []
    [el "div" [className (lit "flex-1 flex flex-col h-screen bg-[#1A1D21]")]
       [el "div" [className (lit "flex-1 overflow-y-auto p-6 space-y-6")]
          (map renderMessage (messages s) ++ renderSpinner (loading s));
        el "div" [className (lit "border-t border-gray-800 p-4")]
          [renderForm s]]].

(** ** The screen with requests in flight *)

(** Handlers do not run to completion in one piece: a handler stops at its
    [await], other events are handled, and the rest of its body runs when
    the backend settles the call.  A pending call keeps the rest of the
    body, which still refers to the render the handler was created in.

    The handlers on the screen are those of the last render: they have
    captured the state of that render, not the live state, until the
    component renders again. *)
Record Screen := {
  ui : ChatState;             (* the live state *)
  rendered : ChatState;       (* the state the last render has captured *)
  inflight : list (api.Call * (api.Outcome -> Prog unit))
}.

Definition mounted : Screen :=
  {| ui := initialState; rendered := initialState; inflight := [] |}.

(** Runs a piece of handler body on the screen, up to its end or to the
    next [await]. *)
Definition advance (E : Env) (p : Prog unit) (sc : Screen) : Screen :=
  match until_await E p (ui sc) 0 with
  | (Settled _, s', _) =>
      {| ui := s'; rendered := rendered sc; inflight := inflight sc |}
  | (Pending c k, s', _) =>
      {| ui := s'; rendered := rendered sc;
         inflight := inflight sc ++ [(c, k)] |}
  end.

Fixpoint remove_nth {A} (i : nat) (l : list A) : list A :=
  match i, l with
  | _, [] => []
  | O, _ :: l' => l'
  | S i', x :: l' => x :: remove_nth i' l'
  end.

Inductive Action :=
| Render                    (* the component renders the live state *)
| Deliver (ev : Event)      (* an event reaches its handler *)
| Settle (i : nat).         (* the backend settles the [i]-th pending call *)

(** One action; the environment gives the outcome of the settled call and
    the clock readings.  An event is delivered to the handler of the last
    render. *)
Definition act (sc : Screen) (a : Action * Env) : Screen :=
  let E := snd a in
  match fst a with
  | Render =>
      {| ui := ui sc; rendered := ui sc; inflight := inflight sc |}
  | Deliver ev => advance E (handler ev (rendered sc)) sc
  | Settle i =>
      match nth_error (inflight sc) i with
      | Some (c, k) =>
          advance E (k (reply E c))
            {| ui := ui sc; rendered := rendered sc;
               inflight := remove_nth i (inflight sc) |}
      | None => sc
      end
  end.

Definition play_from (sc : Screen) (l : list (Action * Env)) : Screen :=
  fold_left act l sc.

Definition play (l : list (Action * Env)) : Screen := play_from mounted l.

(** No initial query arrives: only typing, submitting, settling and
    rendering. *)
Definition manual (a : Action * Env) : Prop :=
  match fst a with
  | Deliver (Navigate _) => False
  | _ => True
  end.

(** The component has rendered before each event is delivered: no event
    reaches a handler of a render older than the last change of state.
    [fresh] tells whether the last render is still up to date. *)
Fixpoint rendered_in_time (fresh : bool) (l : list (Action * Env)) : Prop :=
  match l with
  | [] => True
  | (Render, _) :: l' => rendered_in_time true l'
  | (Deliver _, _) :: l' => fresh = true /\ rendered_in_time false l'
  | (Settle _, _) :: l' => rendered_in_time false l'
  end.

(** ** More vocabulary *)

(** A transcript made of exchanges: a user message followed by its
    assistant message, which alone carries sources, or a single error
    entry. *)
Inductive exchanges : list Message -> Prop :=
| exchanges_nil : exchanges []
| exchanges_pair (u a : Message) (src : list Source) (l : list Message) :
    type u = MessageType.user -> sources u = None ->
    type a = MessageType.assistant -> sources a = Some src ->
    exchanges l -> exchanges (u :: a :: l)
| exchanges_error (m : Message) (l : list Message) :
    type m = MessageType.error -> sources m = None ->
    exchanges l -> exchanges (m :: l).

(** All the sources on a transcript, in order. *)
Definition sources_of (l : list Message) : list Source :=
  flat_map (fun m => match sources m with Some src => src | None => [] end) l.

(** A request was resolved while handling the event. *)
Definition resolved_by (s : ChatState) (t : Event * Env)
    (r : api.GenerateResponse) : Prop :=
  exists c, In c (calls (run (snd t) (handler (fst t) s) s)) /\
            reply (snd t) c = api.Resolved r.

(** The source cards of a transcript, in order. *)
Definition cards (l : list Message) : list Element :=
  flat_map (fun m => match sources m with
                     | Some src => mapi renderSource src
                     | None => []
                     end) l.

(** The key of an element, if it has one. *)
Definition keyf (x : Element) : list jsstring :=
  match key_of x with Some k => [k] | None => [] end.

(** The keys of the keyed [div]s of a tree: those of the transcript
    entries. *)
Definition entry_keys (e : Element) : list jsstring :=
  flat_map keyf (by_tag "div" e).

(** All the text inside an element, in document order. *)
Definition texts (e : Element) : list jsstring :=
  flat_map own_text (descendants e).

(** The two states of the guard: idle with nothing in flight, or loading
    with exactly one call in flight. *)
Definition single_flight (sc : Screen) : Prop :=
  (loading (ui sc) = false /\ inflight sc = []) \/
  (loading (ui sc) = true /\ exists x, inflight sc = [x]).

(** The rest of a handler body that, resumed with any outcome on any
    state, runs to its end without another [await], completes normally
    and leaves the loading flag down. *)
Definition finishing (k : api.Outcome -> Prog unit) : Prop :=
  forall (E : Env) (o : api.Outcome) (s : ChatState),
    exists s' n,
      until_await E (k o) s 0 = (Settled (Normal tt), s', n) /\
      loading s' = false.

(** The three ways a handled event can go. *)
Inductive Course (E : Env) (s : ChatState) (ev : Event) : Run unit -> Prop :=
| course_quiet (s' : ChatState) :
    messages s' = messages s -> conversationId s' = conversationId s ->
    loading s' = loading s -> error s' = error s ->
    Course E s ev
      {| completion := Normal tt; final := s'; calls := []; reads := 0 |}
| course_resolved (c : api.Call) (r : api.GenerateResponse)
    (keep : list Message) (q v : jsstring) :
    reply E c = api.Resolved r ->
    (ev = Submit /\ keep = messages s /\ q = inputValue s /\ v = lit "" /\
       c = generateCall q (conversationId s)) \/
    (ev = Navigate (Some q) /\ keep = [] /\ v = inputValue s /\
       c = generateCall q None) ->
    Course E s ev
      {| completion := Normal tt;
         final :=
           {| messages := keep ++
                [userMessageOf (now E 0) q; aiMessageOf (now E 1) r];
              inputValue := v;
              conversationId := Some (api.conversation_id r);
              loading := false;
              error := None |};
         calls := [c]; reads := 2 |}
| course_rejected (c : api.Call) (e : api.Thrown) (keep : list Message) :
    reply E c = api.Rejected e ->
    (ev = Submit /\ keep = messages s /\
       c = generateCall (inputValue s) (conversationId s)) \/
    (exists q, ev = Navigate (Some q) /\ keep = [] /\
       c = generateCall q None) ->
    Course E s ev
      {| completion := Normal tt;
         final :=
           {| messages := keep ++ [errorMsgOf (now E 0) (errorMessageOf e)];
              inputValue := inputValue s;
              conversationId := conversationId s;
              loading := false;
              error := Some (errorMessageOf e) |};
         calls := [c]; reads := 1 |}.

(** Typing and submitting, then trying a second submission while the
    first is pending; the component renders after each change. *)
Definition manual_actions : list (Action * Env) :=
  [(Deliver (Change (lit "hello")), env_ok);
   (Render, env_ok);
   (Deliver Submit, env_ok);
   (Render, env_ok);
   (Deliver Submit, env_ok)].

(** A submission is pending when an initial query arrives. *)
Definition overlapping_actions : list (Action * Env) :=
  [(Deliver (Change (lit "hello")), env_ok);
   (Render, env_ok);
   (Deliver Submit, env_ok);
   (Deliver (Navigate (Some (lit "next"))), env_ok)].

(** Two submit events reach the same render. *)
Definition hasty_actions : list (Action * Env) :=
  [(Deliver (Change (lit "hello")), env_ok);
   (Render, env_ok);
   (Deliver Submit, env_ok);
   (Deliver Submit, env_ok)].

(** Two exchanges two milliseconds apart, with typing in between. *)
Definition brisk_exchanges : list (Event * Env) :=
  [(Change (lit "a"), env_ok);
   (Submit, env_ok);
   (Change (lit "b"), env_ok);
   (Submit, env (api.Resolved sample_response) (t0 + 2) (t0 + 2))].

(** * Supporting lemmas *)

(** ** Facts about the JavaScript helpers *)

Section Strings.

Lemma trimStart_blank (s : jsstring) :
  isBlank s = true -> trimStart s = [].
Proof.
  induction s as [|c s IH]; simpl; [reflexivity|].
  intros H. apply andb_true_iff in H as [Hc Hs].
  rewrite Hc. now apply IH.
Qed.

Lemma trimStart_not_blank (s : jsstring) :
  isBlank s = false ->
  exists c rest, trimStart s = c :: rest /\ isWhiteSpace c = false.
Proof.
  induction s as [|c s IH]; simpl; [discriminate|].
  destruct (isWhiteSpace c) eqn:Hc; simpl.
  - exact IH.
  - intros _. now exists c, s.
Qed.

Lemma trimStart_snoc (s : jsstring) (c : codeunit) :
  isWhiteSpace c = false -> trimStart (s ++ [c]) <> [].
Proof.
  intros Hc. induction s as [|d s IH]; simpl.
  - now rewrite Hc.
  - destruct (isWhiteSpace d); [exact IH | discriminate].
Qed.

Lemma truthy_trim (s : jsstring) :
  truthy (trim s) = negb (isBlank s).
Proof.
  unfold trim, trimEnd.
  destruct (isBlank s) eqn:Hb; simpl.
  - now rewrite (trimStart_blank s Hb).
  - destruct (trimStart_not_blank s Hb) as (c & rest & -> & Hc).
    simpl rev.
    pose proof (trimStart_snoc (rev rest) c Hc) as Hne.
    destruct (trimStart (rev rest ++ [c])) as [|d l] eqn:Ht;
      [congruence|].
    simpl. destruct (rev l ++ [d]) eqn:Hr; [|reflexivity].
    now destruct (rev l).
Qed.

Lemma lit_inj (a b : string) : lit a = lit b -> a = b.
Proof.
  unfold lit. intros H.
  rewrite <- (string_of_list_ascii_of_string a),
          <- (string_of_list_ascii_of_string b).
  f_equal.
  revert H. generalize (list_ascii_of_string a) (list_ascii_of_string b).
  induction l as [|x l IH]; intros [|y l']; simpl; try discriminate;
    [reflexivity|].
  intros [= Hxy Hl]. f_equal; [|now apply IH].
  rewrite <- (ascii_N_embedding x), <- (ascii_N_embedding y).
  now rewrite Hxy.
Qed.

Lemma to_int_proper (z : Z) :
  Z.to_int z <> Decimal.Pos Decimal.Nil /\
  Z.to_int z <> Decimal.Neg Decimal.Nil.
Proof.
  destruct z as [|p|p]; simpl; split; try discriminate;
    intros [= H]; now apply (Unsigned.to_uint_nonnil p).
Qed.

(** Decimal printing tells integers apart. *)
Lemma toString_inj (a b : Z) : toString a = toString b -> a = b.
Proof.
  unfold toString. intros H%lit_inj.
  apply DecimalZ.to_int_inj.
  destruct (to_int_proper a) as [Ha1 Ha2], (to_int_proper b) as [Hb1 Hb2].
  pose proof (NilZero.isi _ Ha1 Ha2) as Ea.
  pose proof (NilZero.isi _ Hb1 Hb2) as Eb.
  rewrite H in Ea. congruence.
Qed.

Lemma includes_suffix (pre s : jsstring) : includes (pre ++ s) s.
Proof. exists pre, []. now rewrite app_nil_r. Qed.

End Strings.

Arguments lit : simpl never.
Arguments toString : simpl never.

(** ** What a run of each handler computes *)

Section Runs.

Variable E : Env.

Lemma handleError_eq (e : api.Thrown) :
  handleError e = (setError (Some (errorMessageOf e)) ;; Ret (errorMessageOf e)).
Proof. now destruct e. Qed.

(** The guard of [handleSubmit] returns at once. *)
Lemma handleSubmit_skipped (s : ChatState) :
  isBlank (inputValue s) = true \/ loading s = true ->
  handleSubmit s = Ret tt.
Proof.
  unfold handleSubmit. rewrite truthy_trim, negb_involutive.
  now intros [-> | ->]; [|rewrite orb_true_r].
Qed.

Lemma handleSubmit_body (s : ChatState) :
  isBlank (inputValue s) = false -> loading s = false ->
  negb (truthy (trim (inputValue s))) || loading s = false.
Proof.
  intros Hb Hl. now rewrite truthy_trim, negb_involutive, Hb, Hl.
Qed.

Lemma submit_skipped (s : ChatState) :
  isBlank (inputValue s) = true \/ loading s = true ->
  submit E s =
    {| completion := Normal tt; final := s; calls := []; reads := 0 |}.
Proof.
  intros H. unfold submit. now rewrite (handleSubmit_skipped s H).
Qed.

Lemma submit_resolved (s : ChatState) (r : api.GenerateResponse) :
  isBlank (inputValue s) = false -> loading s = false ->
  reply E (generateCall (inputValue s) (conversationId s)) = api.Resolved r ->
  submit E s =
    {| completion := Normal tt;
       final :=
         {| messages := messages s ++
              [userMessageOf (now E 0) (inputValue s);
               aiMessageOf (now E 1) r];
            inputValue := lit "";
            conversationId := Some (api.conversation_id r);
            loading := false;
            error := None |};
       calls := [generateCall (inputValue s) (conversationId s)];
       reads := 2 |}.
Proof.
  intros Hb Hl Hr. unfold submit, run, handleSubmit.
  rewrite (handleSubmit_body s Hb Hl). cbn.
  unfold generateCall in Hr. rewrite Hr. reflexivity.
Qed.

Lemma submit_rejected (s : ChatState) (e : api.Thrown) :
  isBlank (inputValue s) = false -> loading s = false ->
  reply E (generateCall (inputValue s) (conversationId s)) = api.Rejected e ->
  submit E s =
    {| completion := Normal tt;
       final :=
         {| messages := messages s ++
              [errorMsgOf (now E 0) (errorMessageOf e)];
            inputValue := inputValue s;
            conversationId := conversationId s;
            loading := false;
            error := Some (errorMessageOf e) |};
       calls := [generateCall (inputValue s) (conversationId s)];
       reads := 1 |}.
Proof.
  intros Hb Hl Hr. unfold submit, run, handleSubmit.
  rewrite (handleSubmit_body s Hb Hl). cbn.
  unfold generateCall in Hr. rewrite Hr.
  now destruct e.
Qed.

Lemma initial_resolved (q : jsstring) (s : ChatState)
    (r : api.GenerateResponse) :
  reply E (generateCall q None) = api.Resolved r ->
  run E (handleInitialQuery q) s =
    {| completion := Normal tt;
       final :=
         {| messages := [userMessageOf (now E 0) q; aiMessageOf (now E 1) r];
            inputValue := inputValue s;
            conversationId := Some (api.conversation_id r);
            loading := false;
            error := None |};
       calls := [generateCall q None];
       reads := 2 |}.
Proof.
  intros Hr. unfold run, handleInitialQuery. cbn.
  unfold generateCall in Hr. rewrite Hr. reflexivity.
Qed.

Lemma initial_rejected (q : jsstring) (s : ChatState) (e : api.Thrown) :
  reply E (generateCall q None) = api.Rejected e ->
  run E (handleInitialQuery q) s =
    {| completion := Normal tt;
       final :=
         {| messages := [errorMsgOf (now E 0) (errorMessageOf e)];
            inputValue := inputValue s;
            conversationId := conversationId s;
            loading := false;
            error := Some (errorMessageOf e) |};
       calls := [generateCall q None];
       reads := 1 |}.
Proof.
  intros Hr. unfold run, handleInitialQuery. cbn.
  unfold generateCall in Hr. rewrite Hr.
  now destruct e.
Qed.

(** The asynchronous view of a submission that passes the guard: at the
    [await] the call is pending and the loading flag is up. *)
Lemma submit_pending (s : ChatState) :
  isBlank (inputValue s) = false -> loading s = false ->
  exists k,
    until_await E (handleSubmit s) s 0 =
      (Pending (generateCall (inputValue s) (conversationId s)) k,
       with_error None (with_loading true s), 0).
Proof.
  intros Hb Hl. unfold handleSubmit.
  rewrite (handleSubmit_body s Hb Hl). cbn. eexists. reflexivity.
Qed.

(** A run is its synchronous prefix, then the rest of the body resumed
    with whatever the backend replies. *)
Lemma exec_until_await {A : Type} (p : Prog A) :
  forall (s : ChatState) (log : list api.Call) (n : nat),
    match until_await E p s n with
    | (Settled c, s', n') =>
        exec E p s log n =
          {| completion := c; final := s'; calls := log; reads := n' |}
    | (Pending c k, s', n') =>
        exec E p s log n = exec E (k (reply E c)) s' (log ++ [c]) n'
    end.
Proof.
  induction p as [a | e | u k IH | k IH | c k IH]; intros s log n; simpl;
    try reflexivity.
  - apply IH.
  - apply IH.
Qed.

(** Once resumed, with any outcome, the submission ends with the loading
    flag down. *)
Lemma submit_resumed (s : ChatState) (o : api.Outcome) :
  isBlank (inputValue s) = false -> loading s = false ->
  exists k,
    fst (fst (until_await E (handleSubmit s) s 0)) =
      Pending (generateCall (inputValue s) (conversationId s)) k /\
    loading (final (exec E (k o) (with_error None (with_loading true s))
                      [] 0)) = false.
Proof.
  intros Hb Hl. unfold handleSubmit.
  rewrite (handleSubmit_body s Hb Hl). cbn. eexists. split; [reflexivity|].
  now destruct o as [r|[m|m|m|]].
Qed.

(** An idle screen is idle again after every event. *)
Lemma step_idle (s : ChatState) (ev : Event) :
  loading s = false -> loading (step s (ev, E)) = false.
Proof.
  intros Hl. unfold step. simpl fst. simpl snd.
  destruct ev as [[[|c q]|] | v | ]; simpl handler; try exact Hl.
  - destruct (reply E (generateCall (c :: q) None)) as [r|e] eqn:Hr.
    + now rewrite (initial_resolved (c :: q) s r Hr).
    + now rewrite (initial_rejected (c :: q) s e Hr).
  - fold (submit E s).
    destruct (isBlank (inputValue s)) eqn:Hb.
    { now rewrite (submit_skipped s (or_introl Hb)). }
    destruct (reply E (generateCall (inputValue s) (conversationId s)))
      as [r|e] eqn:Hr.
    + now rewrite (submit_resolved s r Hb Hl Hr).
    + now rewrite (submit_rejected s e Hb Hl Hr).
Qed.

End Runs.

Lemma session_idle (l : list (Event * Env)) :
  forall s, loading s = false -> loading (session_from s l) = false.
Proof.
  induction l as [|[ev E] l IH]; intros s Hl; [exact Hl|].
  unfold session_from. simpl fold_left. apply IH. now apply step_idle.
Qed.

(** ** A handler created in one render and run on another state *)

Section Handlers.

Variable E : Env.

(** A submission created in the render [r] and run on the live state
    [s]: the query, the identifier and the user message come from the
    render, the transcript that is extended is the live one. *)
Lemma run_handleSubmit_resolved (r s : ChatState) (resp : api.GenerateResponse) :
  isBlank (inputValue r) = false -> loading r = false ->
  reply E (generateCall (inputValue r) (conversationId r)) = api.Resolved resp ->
  run E (handleSubmit r) s =
    {| completion := Normal tt;
       final :=
         {| messages := messages s ++
              [userMessageOf (now E 0) (inputValue r);
               aiMessageOf (now E 1) resp];
            inputValue := lit "";
            conversationId := Some (api.conversation_id resp);
            loading := false;
            error := None |};
       calls := [generateCall (inputValue r) (conversationId r)];
       reads := 2 |}.
Proof.
  intros Hb Hl Hr. unfold run, handleSubmit.
  rewrite (handleSubmit_body r Hb Hl). cbn.
  unfold generateCall in Hr. rewrite Hr. reflexivity.
Qed.

Lemma run_handleSubmit_rejected (r s : ChatState) (e : api.Thrown) :
  isBlank (inputValue r) = false -> loading r = false ->
  reply E (generateCall (inputValue r) (conversationId r)) = api.Rejected e ->
  run E (handleSubmit r) s =
    {| completion := Normal tt;
       final :=
         {| messages := messages s ++ [errorMsgOf (now E 0) (errorMessageOf e)];
            inputValue := inputValue s;
            conversationId := conversationId s;
            loading := false;
            error := Some (errorMessageOf e) |};
       calls := [generateCall (inputValue r) (conversationId r)];
       reads := 1 |}.
Proof.
  intros Hb Hl Hr. unfold run, handleSubmit.
  rewrite (handleSubmit_body r Hb Hl). cbn.
  unfold generateCall in Hr. rewrite Hr. now destruct e.
Qed.

Lemma run_handleSubmit_skipped (r s : ChatState) :
  isBlank (inputValue r) = true \/ loading r = true ->
  run E (handleSubmit r) s =
    {| completion := Normal tt; final := s; calls := []; reads := 0 |}.
Proof. intros H. now rewrite (handleSubmit_skipped r H). Qed.

Lemma handled_course (s : ChatState) (ev : Event) :
  Course E s ev (run E (handler ev s) s).
Proof.
  destruct ev as [[[|c q]|] | v | ]; simpl handler.
  - now apply course_quiet.
  - destruct (reply E (generateCall (c :: q) None)) as [r|e] eqn:Hr.
    + rewrite (initial_resolved E (c :: q) s r Hr).
      apply (course_resolved E s _ (generateCall (c :: q) None) r []
               (c :: q) (inputValue s) Hr). now right.
    + rewrite (initial_rejected E (c :: q) s e Hr).
      apply (course_rejected E s _ (generateCall (c :: q) None) e [] Hr).
      right. now exists (c :: q).
  - now apply course_quiet.
  - now apply course_quiet.
  - fold (submit E s).
    destruct (isBlank (inputValue s)) eqn:Hb.
    { rewrite (submit_skipped E s (or_introl Hb)). now apply course_quiet. }
    destruct (loading s) eqn:Hl.
    { rewrite (submit_skipped E s (or_intror Hl)). now apply course_quiet. }
    destruct (reply E (generateCall (inputValue s) (conversationId s)))
      as [r|e] eqn:Hr.
    + rewrite (submit_resolved E s r Hb Hl Hr).
      apply (course_resolved E s _ _ r (messages s) (inputValue s) (lit "") Hr).
      now left.
    + rewrite (submit_rejected E s e Hb Hl Hr).
      apply (course_rejected E s _ _ e (messages s) Hr). now left.
Qed.

End Handlers.

(** * Properties *)

(** ** Successful submission *)

(** C1.  A non-blank query submitted while no request is pending, whose
    generate call succeeds, appends to the transcript exactly one user
    message carrying the query, followed by exactly one assistant message
    carrying the answer and as many sources as the response has
    citations. *)
Theorem submit_success_appends_pair
    (E : Env) (s : ChatState) (r : api.GenerateResponse) :
  isBlank (inputValue s) = false ->
  loading s = false ->
  reply E (generateCall (inputValue s) (conversationId s)) = api.Resolved r ->
  exists u a src,
    messages (final (submit E s)) = messages s ++ [u; a] /\
    type u = MessageType.user /\ content u = inputValue s /\
    type a = MessageType.assistant /\ content a = api.answer r /\
    sources a = Some src /\ List.length src = List.length (api.citations r).
Proof.
  intros Hb Hl Hr. rewrite (submit_resolved E s r Hb Hl Hr). simpl.
  exists (userMessageOf (now E 0) (inputValue s)), (aiMessageOf (now E 1) r).
  eexists. repeat split. simpl. apply length_map.
Qed.

Lemma submit_success_appends_pair_witness :
  exists u a src,
    messages (final (submit env_ok typed_hello)) =
      messages typed_hello ++ [u; a] /\
    type u = MessageType.user /\ content u = inputValue typed_hello /\
    type a = MessageType.assistant /\
    content a = api.answer sample_response /\
    sources a = Some src /\
    List.length src = List.length (api.citations sample_response).
Proof.
  apply (submit_success_appends_pair env_ok typed_hello sample_response);
    reflexivity.
Defined.

(** ** Failures *)

(** The statement of C3 fails for a failed initial query on a screen
    that already shows messages: after the first exchange the transcript
    holds two messages, and an initial query rejected with "rate limited"
    leaves the error entry alone on the transcript instead of appending
    it. *)
Lemma failed_initial_query_replaces_transcript :
  List.length (messages (session first_exchange)) = 2%nat /\
  messages (final (run env_rate_limited (handleInitialQuery (lit "next"))
                     (session first_exchange))) =
    [errorMsgOf t0 (lit "API Error: rate limited")] /\
  messages (final (run env_rate_limited (handleInitialQuery (lit "next"))
                     (session first_exchange))) <>
    messages (session first_exchange) ++
      [errorMsgOf t0 (lit "API Error: rate limited")].
Proof.
  split; [reflexivity|]. split; [reflexivity|].
  intros H. apply (f_equal (@List.length _)) in H. discriminate H.
Qed.

(** C3 (amended).  A failed request is classified into one string: the
    error's message behind "API Error: " for an API error, behind
    "Network Error: " for a network error, the message itself for any
    other error, and a fixed fallback for a value that is no error.  One
    error-role message with that string is put on the transcript: a
    failed manual submission appends it to the transcript, whatever
    state the request completes on, and a failed initial query sets the
    transcript to that one message.  An application error "rate limited"
    gives an entry containing that text. *)
Theorem failure_appends_classified_error
    (E : Env) (r s : ChatState) (q : jsstring) (e : api.Thrown) :
  exists text,
    match e with
    | api.APIError m => text = lit "API Error: " ++ m
    | api.NetworkError m => text = lit "Network Error: " ++ m
    | api.Error m => text = m
    | api.NonError => text = lit "An unexpected error occurred"
    end /\
    (isBlank (inputValue r) = false ->
     loading r = false ->
     reply E (generateCall (inputValue r) (conversationId r))
       = api.Rejected e ->
     messages (final (run E (handleSubmit r) s)) =
       messages s ++
         [{| id := toString (now E 0); type := MessageType.error;
             content := text; sources := None |}] /\
     error (final (run E (handleSubmit r) s)) = Some text) /\
    (reply E (generateCall q None) = api.Rejected e ->
     messages (final (run E (handleInitialQuery q) s)) =
       [{| id := toString (now E 0); type := MessageType.error;
           content := text; sources := None |}] /\
     error (final (run E (handleInitialQuery q) s)) = Some text) /\
    (e = api.APIError (lit "rate limited") ->
     includes text (lit "rate limited")).
Proof.
  exists (errorMessageOf e). split; [now destruct e|]. split; [|split].
  - intros Hb Hl Hr. now rewrite (run_handleSubmit_rejected E r s e Hb Hl Hr).
  - intros Hr. now rewrite (initial_rejected E q s e Hr).
  - intros ->. apply includes_suffix.
Qed.

Lemma failure_appends_classified_error_witness :
  exists text,
    text = lit "API Error: " ++ lit "rate limited" /\
    messages (final (submit env_rate_limited typed_hello)) =
      messages typed_hello ++
        [{| id := toString (now env_rate_limited 0);
            type := MessageType.error;
            content := text; sources := None |}] /\
    messages (final (run env_rate_limited (handleInitialQuery (lit "next"))
                       (session first_exchange))) =
      [{| id := toString (now env_rate_limited 0);
          type := MessageType.error;
          content := text; sources := None |}] /\
    includes text (lit "rate limited").
Proof.
  destruct (failure_appends_classified_error env_rate_limited
              typed_hello typed_hello (lit "next")
              (api.APIError (lit "rate limited")))
    as (text & Ht & Hs & _ & Hin).
  destruct (failure_appends_classified_error env_rate_limited
              typed_hello (session first_exchange) (lit "next")
              (api.APIError (lit "rate limited")))
    as (text' & Ht' & _ & Hi & _).
  exists text. split; [exact Ht|].
  split; [exact (proj1 (Hs eq_refl eq_refl eq_refl))|].
  split; [|exact (Hin eq_refl)].
  rewrite Ht, <- Ht'. exact (proj1 (Hi eq_refl)).
Defined.

(** C10.  When the request of a manual submission fails, the transcript
    changes by the one appended error-role message only: no user message
    is added, and the input value and the stored conversation identifier
    stay as they were. *)
Theorem failed_submit_keeps_input_and_conversation
    (E : Env) (s : ChatState) (e : api.Thrown) :
  isBlank (inputValue s) = false ->
  loading s = false ->
  reply E (generateCall (inputValue s) (conversationId s)) = api.Rejected e ->
  exists m,
    messages (final (submit E s)) = messages s ++ [m] /\
    type m = MessageType.error /\
    inputValue (final (submit E s)) = inputValue s /\
    conversationId (final (submit E s)) = conversationId s.
Proof.
  intros Hb Hl Hr. rewrite (submit_rejected E s e Hb Hl Hr). simpl.
  eexists. repeat split.
Qed.

Lemma failed_submit_keeps_input_and_conversation_witness :
  exists m,
    messages (final (submit env_rate_limited typed_hello)) =
      messages typed_hello ++ [m] /\
    type m = MessageType.error /\
    inputValue (final (submit env_rate_limited typed_hello)) =
      inputValue typed_hello /\
    conversationId (final (submit env_rate_limited typed_hello)) =
      conversationId typed_hello.
Proof.
  apply (failed_submit_keeps_input_and_conversation env_rate_limited
           typed_hello (api.APIError (lit "rate limited"))); reflexivity.
Defined.

(** ** The pending-request guard *)

(** C4.  A submission attempted while the loading flag is up does
    nothing: the handler returns before its first effect, so the state
    (the transcript with it) is unchanged, no generate call is made, and
    no call is left pending. *)
Theorem submit_while_pending_is_noop (E : Env) (s : ChatState) :
  loading s = true ->
  messages (final (submit E s)) = messages s /\
  calls (submit E s) = [] /\
  final (submit E s) = s /\
  until_await E (handleSubmit s) s 0 = (Settled (Normal tt), s, 0%nat).
Proof.
  intros Hl. rewrite (submit_skipped E s (or_intror Hl)).
  rewrite (handleSubmit_skipped s (or_intror Hl)). now repeat split.
Qed.

Lemma submit_while_pending_is_noop_witness :
  loading pending_hello = true /\
  messages (final (submit env_ok pending_hello)) = messages pending_hello /\
  calls (submit env_ok pending_hello) = [] /\
  final (submit env_ok pending_hello) = pending_hello /\
  until_await env_ok (handleSubmit pending_hello) pending_hello 0 =
    (Settled (Normal tt), pending_hello, 0%nat).
Proof.
  split; [reflexivity|].
  apply (submit_while_pending_is_noop env_ok pending_hello). reflexivity.
Defined.

(** C6.  Whenever one of the two handlers makes a request, it completes
    normally, whether the request was resolved or rejected, and leaves
    the loading flag down.  This holds for a handler created in any
    render and run on any state, the flag up or down at its start: the
    handler raises the flag before it awaits, and the rest of its body,
    resumed with any outcome on whatever state the call completes on,
    ends normally with the flag down. *)
Theorem loading_cleared_after_request
    (E : Env) (r s : ChatState) (p : Prog unit) :
  p = handleSubmit r \/ (exists q, p = handleInitialQuery q) ->
  calls (run E p s) <> [] ->
  loading (final (run E p s)) = false /\
  completion (run E p s) = Normal tt /\
  exists c k,
    until_await E p s 0 =
      (Pending c k, with_error None (with_loading true s), 0%nat) /\
    forall (E' : Env) (o : api.Outcome) (s' : ChatState),
      loading (final (exec E' (k o) s' [] 0)) = false /\
      completion (exec E' (k o) s' [] 0) = Normal tt.
Proof.
  intros [-> | [q ->]] Hc.
  - destruct (isBlank (inputValue r)) eqn:Hb.
    { now rewrite (run_handleSubmit_skipped E r s (or_introl Hb)) in Hc. }
    destruct (loading r) eqn:Hl.
    { now rewrite (run_handleSubmit_skipped E r s (or_intror Hl)) in Hc. }
    split; [|split].
    + destruct (reply E (generateCall (inputValue r) (conversationId r)))
        as [resp|e] eqn:Hr.
      * now rewrite (run_handleSubmit_resolved E r s resp Hb Hl Hr).
      * now rewrite (run_handleSubmit_rejected E r s e Hb Hl Hr).
    + destruct (reply E (generateCall (inputValue r) (conversationId r)))
        as [resp|e] eqn:Hr.
      * now rewrite (run_handleSubmit_resolved E r s resp Hb Hl Hr).
      * now rewrite (run_handleSubmit_rejected E r s e Hb Hl Hr).
    + unfold handleSubmit. rewrite (handleSubmit_body r Hb Hl). cbn.
      do 2 eexists. split; [reflexivity|].
      intros E' o s'. now destruct o as [resp|[m|m|m|]].
  - split; [|split].
    + destruct (reply E (generateCall q None)) as [resp|e] eqn:Hr.
      * now rewrite (initial_resolved E q s resp Hr).
      * now rewrite (initial_rejected E q s e Hr).
    + destruct (reply E (generateCall q None)) as [resp|e] eqn:Hr.
      * now rewrite (initial_resolved E q s resp Hr).
      * now rewrite (initial_rejected E q s e Hr).
    + cbn. do 2 eexists. split; [reflexivity|].
      intros E' o s'. now destruct o as [resp|[m|m|m|]].
Qed.

Lemma loading_cleared_after_request_witness :
  loading pending_hello = true /\
  calls (run env_rate_limited (handleSubmit typed_hello) pending_hello) <> [] /\
  loading (final (run env_rate_limited (handleSubmit typed_hello)
                    pending_hello)) = false /\
  completion (run env_rate_limited (handleSubmit typed_hello) pending_hello)
    = Normal tt.
Proof.
  split; [reflexivity|]. split; [discriminate|].
  destruct (loading_cleared_after_request env_rate_limited typed_hello
              pending_hello (handleSubmit typed_hello))
    as (Hl & Hc & _); [now left | discriminate |].
  exact (conj Hl Hc).
Defined.

(** ** Manual submission *)

(** The statement of C5 fails at a failed request and at a pending one.
    A non-blank "hello" submitted from the idle screen to an unreachable
    backend is sent, but the transcript receives the error entry alone
    and the input keeps its value; submitted while a request is pending
    it is not even sent. *)
Lemma submit_hello_offline_not_appended :
  isBlank (inputValue typed_hello) = false /\
  calls (submit env_offline typed_hello) = [generateCall (lit "hello") None] /\
  messages (final (submit env_offline typed_hello)) =
    [errorMsgOf t0 (lit "Network Error: offline")] /\
  inputValue (final (submit env_offline typed_hello)) = lit "hello" /\
  inputValue (final (submit env_offline typed_hello)) <> lit "" /\
  isBlank (inputValue pending_hello) = false /\
  calls (submit env_ok pending_hello) = [].
Proof. repeat split. discriminate. Qed.

(** C5 (amended).  A manual submission of a non-blank input while no
    request is pending sends that input; when the request succeeds the
    input is appended to the running transcript as a user message, ahead
    of the assistant's answer, and the input field is cleared. *)
Theorem manual_submit_sends_appends_clears
    (E : Env) (s : ChatState) (r : api.GenerateResponse) :
  isBlank (inputValue s) = false ->
  loading s = false ->
  map api.request (calls (submit E s)) = [{| api.query := inputValue s |}] /\
  (reply E (generateCall (inputValue s) (conversationId s)) = api.Resolved r ->
   exists a,
     messages (final (submit E s)) =
       messages s ++
         [{| id := toString (now E 0); type := MessageType.user;
             content := inputValue s; sources := None |}; a] /\
     type a = MessageType.assistant /\
     inputValue (final (submit E s)) = lit "").
Proof.
  intros Hb Hl. split.
  - destruct (reply E (generateCall (inputValue s) (conversationId s)))
      as [r'|e] eqn:Hr.
    + now rewrite (submit_resolved E s r' Hb Hl Hr).
    + now rewrite (submit_rejected E s e Hb Hl Hr).
  - intros Hr. rewrite (submit_resolved E s r Hb Hl Hr). simpl.
    now exists (aiMessageOf (now E 1) r).
Qed.

Lemma manual_submit_sends_appends_clears_witness :
  map api.request (calls (submit env_ok typed_hello)) =
    [{| api.query := inputValue typed_hello |}] /\
  (reply env_ok (generateCall (inputValue typed_hello)
                   (conversationId typed_hello))
     = api.Resolved sample_response ->
   exists a,
     messages (final (submit env_ok typed_hello)) =
       messages typed_hello ++
         [{| id := toString (now env_ok 0); type := MessageType.user;
             content := inputValue typed_hello; sources := None |}; a] /\
     type a = MessageType.assistant /\
     inputValue (final (submit env_ok typed_hello)) = lit "").
Proof.
  apply (manual_submit_sends_appends_clears env_ok typed_hello
           sample_response); reflexivity.
Defined.

(** ** Blank queries *)

(** The statement of C7 fails for a query that arrives through the
    navigation state: the effect tests the initial query for truthiness
    only, so three spaces are sent to the backend and the exchange is
    put on the transcript. *)
Lemma whitespace_initial_query_is_sent :
  isBlank (lit "   ") = true /\
  calls (run env_ok (useEffect_initialQuery (Some (lit "   "))) initialState)
    = [generateCall (lit "   ") None] /\
  messages (final (run env_ok (useEffect_initialQuery (Some (lit "   ")))
                     initialState))
    = [userMessageOf t0 (lit "   "); aiMessageOf t0 sample_response].
Proof. repeat split. Qed.

(** C7 (amended).  Submitting the form with a blank or whitespace-only
    input does nothing: the state, hence the transcript, is unchanged and
    no generate call is made.  An initial query, on any state, is skipped
    when it is absent or the empty string; any other initial query, white
    space included, is sent. *)
Theorem blank_submit_is_noop (E : Env) (s : ChatState) :
  (isBlank (inputValue s) = true ->
   final (submit E s) = s /\
   messages (final (submit E s)) = messages s /\
   calls (submit E s) = []) /\
  (forall o, o = None \/ o = Some (lit "") ->
     final (run E (useEffect_initialQuery o) s) = s /\
     calls (run E (useEffect_initialQuery o) s) = []) /\
  (forall q, q <> lit "" ->
     calls (run E (useEffect_initialQuery (Some q)) s) =
       [generateCall q None]).
Proof.
  split; [|split].
  - intros Hb. now rewrite (submit_skipped E s (or_introl Hb)).
  - now intros o [-> | ->].
  - intros [|c q] Hq; [now elim Hq|]. simpl.
    destruct (reply E (generateCall (c :: q) None)) as [r|e] eqn:Hr.
    + now rewrite (initial_resolved E (c :: q) s r Hr).
    + now rewrite (initial_rejected E (c :: q) s e Hr).
Qed.

Lemma blank_submit_is_noop_witness :
  isBlank (inputValue (with_inputValue (lit "  ") initialState)) = true /\
  final (submit env_ok (with_inputValue (lit "  ") initialState)) =
    with_inputValue (lit "  ") initialState /\
  calls (submit env_ok (with_inputValue (lit "  ") initialState)) = [] /\
  calls (run env_ok (useEffect_initialQuery (Some (lit "   "))) typed_hello) =
    [generateCall (lit "   ") None].
Proof.
  split; [reflexivity|].
  destruct (blank_submit_is_noop env_ok
              (with_inputValue (lit "  ") initialState))
    as (Hsub & _ & _).
  destruct (Hsub eq_refl) as (Hs & _ & Hc).
  destruct (blank_submit_is_noop env_ok typed_hello) as (_ & _ & Hq).
  split; [exact Hs|]. split; [exact Hc|].
  apply Hq. discriminate.
Defined.

(** ** Sources *)

(** The statement of C8 fails for a citation whose title is present but
    empty: the empty string is falsy, so the title is not kept but
    replaced by the default. *)
Lemma empty_title_not_kept :
  api.title citation_untitled = Some (lit "") /\
  title (citationToSource citation_untitled) = lit "Source 3" /\
  title (citationToSource citation_untitled) <> lit "".
Proof. repeat split. discriminate. Qed.

Lemma citationToSource_derived (c : api.Citation) :
  derived_from c (citationToSource c).
Proof.
  unfold derived_from, citationToSource. simpl. repeat split.
  - now intros [-> | ->].
  - intros t -> Ht. simpl. destruct t; [now elim Ht | reflexivity].
Qed.

Lemma map_citationToSource_derived (l : list api.Citation) :
  Forall2 derived_from l (map citationToSource l).
Proof.
  induction l; simpl; constructor; auto using citationToSource_derived.
Qed.

(** C8 (amended).  In a successful response handled by either handler,
    on any state, the assistant message has one source per citation, in
    order; a citation whose title is absent or empty gives the title
    "Source {number}" with the citation's number, and a citation with a
    non-empty title keeps it. *)
Theorem citation_title_default
    (E : Env) (s : ChatState) (r : api.GenerateResponse) :
  (isBlank (inputValue s) = false ->
   loading s = false ->
   reply E (generateCall (inputValue s) (conversationId s)) = api.Resolved r ->
   exists u a src,
     messages (final (submit E s)) = messages s ++ [u; a] /\
     sources a = Some src /\
     Forall2 derived_from (api.citations r) src) /\
  (forall q,
     reply E (generateCall q None) = api.Resolved r ->
     exists u a src,
       messages (final (run E (handleInitialQuery q) s)) = [u; a] /\
       sources a = Some src /\
       Forall2 derived_from (api.citations r) src).
Proof.
  split.
  - intros Hb Hl Hr. rewrite (submit_resolved E s r Hb Hl Hr). simpl.
    do 3 eexists. repeat split. apply map_citationToSource_derived.
  - intros q Hr. rewrite (initial_resolved E q s r Hr). simpl.
    do 3 eexists. repeat split. apply map_citationToSource_derived.
Qed.

Lemma citation_title_default_witness :
  (exists u a src,
     messages (final (submit env_ok typed_hello)) =
       messages typed_hello ++ [u; a] /\
     sources a = Some src /\
     Forall2 derived_from (api.citations sample_response) src) /\
  (exists u a src,
     messages (final (run env_ok (handleInitialQuery (lit "first"))
                        initialState)) = [u; a] /\
     sources a = Some src /\
     Forall2 derived_from (api.citations sample_response) src).
Proof.
  split.
  - destruct (citation_title_default env_ok typed_hello sample_response)
      as [H _].
    exact (H eq_refl eq_refl eq_refl).
  - destruct (citation_title_default env_ok initialState sample_response)
      as [_ H].
    exact (H (lit "first") eq_refl).
Defined.

(** ** The conversation identifier *)

(** The statement of C2 fails for the request of [handleInitialQuery]:
    after the first exchange the identifier "c1" is stored, and an
    initial query arriving then is sent without any identifier. *)
Lemma initial_query_omits_stored_id :
  conversationId (session first_exchange) = Some (lit "c1") /\
  map api.conversation
    (calls (run env_ok (handler (Navigate (Some (lit "next")))
                          (session first_exchange))
              (session first_exchange)))
    = [None] /\
  map api.conversation
    (calls (run env_ok (handleInitialQuery (lit "next"))
              (session first_exchange)))
    <> [conversationId (session first_exchange)].
Proof. repeat split. discriminate. Qed.

(** C2 (amended).  The stored identifier starts as null.  The request of
    a manual submission carries the identifier stored at that time; the
    request of an initial query carries none, whatever is stored and
    whatever the state.  After a successful response to either, the
    stored identifier is the response's [conversation_id], and the next
    manual submission carries it. *)
Theorem conversation_id_threading (E : Env) (s : ChatState) :
  conversationId initialState = None /\
  (isBlank (inputValue s) = false ->
   loading s = false ->
   calls (submit E s) = [generateCall (inputValue s) (conversationId s)]) /\
  (forall q, calls (run E (handleInitialQuery q) s) = [generateCall q None]) /\
  (forall r s',
     (isBlank (inputValue s) = false /\ loading s = false /\
      reply E (generateCall (inputValue s) (conversationId s)) = api.Resolved r
      /\ s' = final (submit E s)) \/
     (exists q, reply E (generateCall q None) = api.Resolved r
                /\ s' = final (run E (handleInitialQuery q) s)) ->
     conversationId s' = Some (api.conversation_id r) /\
     forall E' v,
       isBlank v = false ->
       calls (submit E' (with_inputValue v s')) =
         [generateCall v (Some (api.conversation_id r))]).
Proof.
  split; [reflexivity|]. split; [|split].
  - intros Hb Hl.
    destruct (reply E (generateCall (inputValue s) (conversationId s)))
      as [r|e] eqn:Hr.
    + now rewrite (submit_resolved E s r Hb Hl Hr).
    + now rewrite (submit_rejected E s e Hb Hl Hr).
  - intros q. destruct (reply E (generateCall q None)) as [r|e] eqn:Hr.
    + now rewrite (initial_resolved E q s r Hr).
    + now rewrite (initial_rejected E q s e Hr).
  - assert (Hnext : forall s' c, conversationId s' = c -> loading s' = false ->
              forall E' v, isBlank v = false ->
              calls (submit E' (with_inputValue v s')) = [generateCall v c]).
    { intros s' c Hc Hl' E' v Hv.
      destruct (reply E' (generateCall v c)) as [r'|e'] eqn:Hr'.
      - rewrite (submit_resolved E' (with_inputValue v s') r');
          simpl; try assumption; now rewrite ?Hc.
      - rewrite (submit_rejected E' (with_inputValue v s') e');
          simpl; try assumption; now rewrite ?Hc. }
    intros r s' [(Hb & Hl & Hr & ->) | [q [Hr ->]]].
    + rewrite (submit_resolved E s r Hb Hl Hr). simpl.
      split; [reflexivity|]. now apply Hnext.
    + rewrite (initial_resolved E q s r Hr). simpl.
      split; [reflexivity|]. now apply Hnext.
Qed.

Lemma conversation_id_threading_witness :
  calls (submit env_ok typed_hello) =
    [generateCall (inputValue typed_hello) (conversationId typed_hello)] /\
  conversationId (final (submit env_ok typed_hello)) = Some (lit "c1") /\
  calls (submit env_offline
           (with_inputValue (lit "more") (final (submit env_ok typed_hello))))
    = [generateCall (lit "more") (Some (lit "c1"))] /\
  calls (run env_ok (handleInitialQuery (lit "next")) pending_hello) =
    [generateCall (lit "next") None] /\
  conversationId
    (final (run env_ok (handleInitialQuery (lit "first")) initialState)) =
    Some (lit "c1").
Proof.
  destruct (conversation_id_threading env_ok typed_hello)
    as (_ & Hcall & _ & Hnext).
  destruct (Hnext sample_response (final (submit env_ok typed_hello))
              (or_introl (conj eq_refl (conj eq_refl (conj eq_refl eq_refl)))))
    as [Hid Hcarry].
  destruct (conversation_id_threading env_ok pending_hello)
    as (_ & _ & Hinit & _).
  destruct (conversation_id_threading env_ok initialState)
    as (_ & _ & _ & Hmount).
  destruct (Hmount sample_response
              (final (run env_ok (handleInitialQuery (lit "first"))
                        initialState))
              (or_intror (ex_intro _ (lit "first") (conj eq_refl eq_refl))))
    as [Hid' _].
  split; [exact (Hcall eq_refl eq_refl)|]. split; [exact Hid|].
  split; [exact (Hcarry env_offline (lit "more") eq_refl)|].
  split; [exact (Hinit (lit "next")) | exact Hid'].
Defined.

(** ** Message identifiers *)

Section Identifiers.

Open Scope Z_scope.

Lemma fresh_below_nil (bound : Z) : fresh_below bound [].
Proof. split; constructor. Qed.

Lemma fresh_below_mono (b b' : Z) (ids : list jsstring) :
  b <= b' -> fresh_below b ids -> fresh_below b' ids.
Proof.
  intros Hle [Hnd Hall]. split; [exact Hnd|].
  eapply Forall_impl; [|exact Hall].
  intros i (n & -> & Hn). exists n. split; [reflexivity | lia].
Qed.

Lemma fresh_below_snoc (b t b' : Z) (ids : list jsstring) :
  b <= t -> t < b' ->
  fresh_below b ids -> fresh_below b' (ids ++ [toString t]).
Proof.
  intros Hbt Htb [Hnd Hall]. split.
  - apply NoDup_app; [exact Hnd | repeat constructor; intros [] |].
    intros i Hi [<- | []].
    rewrite Forall_forall in Hall.
    destruct (Hall _ Hi) as (n & Hn%toString_inj & Hlt). lia.
  - apply Forall_app. split.
    + eapply Forall_impl; [|exact Hall].
      intros i (n & -> & Hn). exists n. split; [reflexivity | lia].
    + repeat constructor. now exists t.
Qed.

(** The identifiers on the transcript after one event: those kept from
    before, or none, followed by those of the new messages. *)
Lemma step_ids (s : ChatState) (ev : Event) (E : Env) :
  exists keep new,
    map id (messages (step s (ev, E))) = keep ++ map toString new /\
    (keep = map id (messages s) \/ keep = []) /\
    (new = [] \/ new = [now E 0] \/ new = [now E 0; now E 1 + 1]).
Proof.
  assert (Hsame :
    exists keep new,
      map id (messages s) = keep ++ map toString new /\
      (keep = map id (messages s) \/ keep = []) /\
      (new = [] \/ new = [now E 0] \/ new = [now E 0; now E 1 + 1])).
  { exists (map id (messages s)), []. rewrite app_nil_r. auto. }
  assert (Hinit : forall q,
    exists keep new,
      map id (messages (final (run E (handleInitialQuery q) s)))
        = keep ++ map toString new /\
      (keep = map id (messages s) \/ keep = []) /\
      (new = [] \/ new = [now E 0] \/ new = [now E 0; now E 1 + 1])).
  { intros q. destruct (reply E (generateCall q None)) as [r|e] eqn:Hr.
    - rewrite (initial_resolved E q s r Hr).
      exists [], [now E 0; now E 1 + 1]. auto.
    - rewrite (initial_rejected E q s e Hr).
      exists [], [now E 0]. auto. }
  unfold step. simpl fst. simpl snd. destruct ev as [[q|] | v | ].
  - simpl handler. destruct q as [|c q]; [exact Hsame | apply Hinit].
  - exact Hsame.
  - exact Hsame.
  - simpl handler. fold (submit E s).
    destruct (isBlank (inputValue s)) eqn:Hb.
    { now rewrite (submit_skipped E s (or_introl Hb)). }
    destruct (loading s) eqn:Hl.
    { now rewrite (submit_skipped E s (or_intror Hl)). }
    destruct (reply E (generateCall (inputValue s) (conversationId s)))
      as [r|e] eqn:Hr.
    + rewrite (submit_resolved E s r Hb Hl Hr).
      exists (map id (messages s)), [now E 0; now E 1 + 1].
      simpl. rewrite map_app. auto.
    + rewrite (submit_rejected E s e Hb Hl Hr).
      exists (map id (messages s)), [now E 0].
      simpl. rewrite map_app. auto.
Qed.

Lemma step_fresh (s : ChatState) (ev : Event) (E : Env) (b : Z) :
  b <= now E 0 -> now E 0 <= now E 1 ->
  fresh_below b (map id (messages s)) ->
  fresh_below (now E 1 + 2) (map id (messages (step s (ev, E)))).
Proof.
  intros H0 H1 Hs.
  destruct (step_ids s ev E) as (keep & new & -> & Hkeep & Hnew).
  assert (Hk : fresh_below b keep).
  { destruct Hkeep as [-> | ->]; [exact Hs | apply fresh_below_nil]. }
  destruct Hnew as [-> | [-> | ->]]; simpl.
  - rewrite app_nil_r. apply fresh_below_mono with b; [lia | exact Hk].
  - apply fresh_below_snoc with b; [lia | lia | exact Hk].
  - change (keep ++ [toString (now E 0); toString (now E 1 + 1)])
      with (keep ++ [toString (now E 0)] ++ [toString (now E 1 + 1)]).
    rewrite app_assoc.
    apply fresh_below_snoc with (now E 0 + 1); [lia | lia |].
    apply fresh_below_snoc with b; [lia | lia | exact Hk].
Qed.

Lemma session_from_fresh (l : list (Event * Env)) :
  forall (s : ChatState) (b : Z),
    fresh_below b (map id (messages s)) -> spaced b l ->
    exists b', fresh_below b' (map id (messages (session_from s l))).
Proof.
  induction l as [|[ev E] l IH]; intros s b Hs Hsp.
  - now exists b.
  - destruct Hsp as (H0 & H1 & Hsp). unfold session_from. simpl fold_left.
    apply (IH (step s (ev, E)) (now E 1 + 2)); [|exact Hsp].
    now apply step_fresh with b.
Qed.

End Identifiers.

(** The statement of C9 fails on both counts.  When the clock ticks
    between the two readings of a submission, the assistant's identifier
    is the user's plus two; and two exchanges one millisecond apart put
    the same identifier on the transcript twice. *)
Lemma ids_not_paired_nor_distinct :
  map id (messages (final (submit env_tick typed_hello)))
    = [toString 1000; toString 1002] /\
  toString 1002 <> toString (1000 + 1) /\
  map id (messages (session rapid_exchanges))
    = [toString t0; toString (t0 + 1); toString (t0 + 1); toString (t0 + 2)] /\
  ~ NoDup (map id (messages (session rapid_exchanges))).
Proof.
  split; [reflexivity|]. split; [discriminate|]. split; [reflexivity|].
  intros H.
  apply NoDup_cons_iff in H as [_ H].
  apply NoDup_cons_iff in H as [Hn _].
  apply Hn. now left.
Qed.

Lemma kept_fresh (last : option Z) (s : ChatState) (keep : list Message)
    (t : Z) :
  recorded last s -> later_than last t ->
  keep = messages s \/ keep = [] ->
  fresh_below t (map id keep).
Proof.
  intros Hrec Hlt [-> | ->]; [|apply fresh_below_nil].
  destruct last as [t'|]; simpl in *.
  - apply fresh_below_mono with (t' + 2)%Z; assumption.
  - rewrite Hrec. apply fresh_below_nil.
Qed.

(** The transcript keeps its identifiers distinct as long as the
    readings actually taken are spaced. *)
Lemma session_from_recorded (l : list (Event * Env)) :
  forall (s : ChatState) (last : option Z),
    recorded last s -> readings_spaced last s l ->
    exists last', recorded last' (session_from s l).
Proof.
  induction l as [|[ev E] l IH]; intros s last Hrec Hsp.
  - now exists last.
  - unfold session_from. simpl fold_left. unfold step. simpl fst. simpl snd.
    cbn [readings_spaced] in Hsp. cbv zeta in Hsp. revert Hsp.
    destruct (handled_course E s ev)
      as [s' Hm _ _ _ | c r keep q v _ Hcase | c e keep _ Hcase];
      cbn [reads final]; intros Hsp.
    + apply (IH s' last); [|exact Hsp].
      destruct last as [t|]; simpl in *; now rewrite Hm.
    + destruct Hsp as (Hlt & Hle & Hsp).
      eapply IH; [|exact Hsp]. simpl.
      assert (Hk : fresh_below (now E 0) (map id keep)).
      { apply (kept_fresh last s keep (now E 0) Hrec Hlt).
        destruct Hcase as [(_ & -> & _) | (_ & -> & _)]; auto. }
      rewrite map_app. simpl.
      change (map id keep ++ [toString (now E 0); toString (now E 1 + 1)%Z])
        with (map id keep ++ [toString (now E 0)] ++
                [toString (now E 1 + 1)%Z]).
      rewrite app_assoc.
      apply fresh_below_snoc with (now E 0 + 1)%Z; [lia | lia |].
      apply fresh_below_snoc with (now E 0); [lia | lia | exact Hk].
    + destruct Hsp as (Hlt & Hsp).
      eapply IH; [|exact Hsp]. simpl.
      assert (Hk : fresh_below (now E 0) (map id keep)).
      { apply (kept_fresh last s keep (now E 0) Hrec Hlt).
        destruct Hcase as [(_ & -> & _) | (q & _ & -> & _)]; auto. }
      rewrite map_app. simpl.
      apply fresh_below_snoc with (now E 0); [lia | lia | exact Hk].
Qed.

(** C9 (amended).  In the user/assistant pair created by a submission or
    by an initial query, the user's identifier is the decimal of the
    first clock reading and the assistant's that of the second reading
    plus one, so that it is the user's identifier plus one when the two
    readings agree.  Over a session whose clock readings are spaced (no
    reading earlier than the one before it, two milliseconds or more
    between the last reading of one handler and the first reading of the
    next), the identifiers on the transcript are pairwise distinct. *)
Theorem message_ids_paired_and_distinct :
  (forall l, readings_spaced None initialState l ->
             NoDup (map id (messages (session l)))) /\
  (forall E r s resp,
     isBlank (inputValue r) = false -> loading r = false ->
     reply E (generateCall (inputValue r) (conversationId r))
       = api.Resolved resp ->
     exists u a,
       messages (final (run E (handleSubmit r) s)) = messages s ++ [u; a] /\
       id u = toString (now E 0) /\
       id a = toString (now E 1 + 1) /\
       (now E 1 = now E 0 -> id a = toString (now E 0 + 1))) /\
  (forall E s q resp,
     reply E (generateCall q None) = api.Resolved resp ->
     exists u a,
       messages (final (run E (handleInitialQuery q) s)) = [u; a] /\
       id u = toString (now E 0) /\
       id a = toString (now E 1 + 1) /\
       (now E 1 = now E 0 -> id a = toString (now E 0 + 1))).
Proof.
  split; [|split].
  - intros l Hsp.
    destruct (session_from_recorded l initialState None eq_refl Hsp)
      as [[t|] Hrec]; simpl in Hrec.
    + exact (proj1 Hrec).
    + unfold session. rewrite Hrec. constructor.
  - intros E r s resp Hb Hl Hr.
    rewrite (run_handleSubmit_resolved E r s resp Hb Hl Hr). simpl.
    do 2 eexists. repeat split. simpl. now intros ->.
  - intros E s q resp Hr. rewrite (initial_resolved E q s resp Hr). simpl.
    do 2 eexists. repeat split. simpl. now intros ->.
Qed.

Lemma message_ids_paired_and_distinct_witness :
  readings_spaced None initialState brisk_exchanges /\
  NoDup (map id (messages (session brisk_exchanges))) /\
  List.length (messages (session brisk_exchanges)) = 4%nat.
Proof.
  assert (Hsp : readings_spaced None initialState brisk_exchanges).
  { simpl. unfold t0. repeat split; lia. }
  split; [exact Hsp|]. split; [|reflexivity].
  exact (proj1 message_ids_paired_and_distinct brisk_exchanges Hsp).
Defined.

(** * Further properties of the handlers *)


Lemma exchanges_app (l1 l2 : list Message) :
  exchanges l1 -> exchanges l2 -> exchanges (l1 ++ l2).
Proof.
  intros H1 H2. induction H1; simpl.
  - exact H2.
  - eapply exchanges_pair; eauto.
  - eapply exchanges_error; eauto.
Qed.

Lemma step_exchanges (s : ChatState) (t : Event * Env) :
  exchanges (messages s) -> exchanges (messages (step s t)).
Proof.
  intros Hs. destruct t as [ev E]. unfold step. simpl fst. simpl snd.
  destruct (handled_course E s ev)
    as [s' Hm _ _ _ | c r keep q v _ Hcase | c e keep _ Hcase]; simpl.
  - now rewrite Hm.
  - apply exchanges_app.
    + destruct Hcase as [(_ & -> & _) | (_ & -> & _)];
        [exact Hs | constructor].
    + eapply exchanges_pair; try reflexivity. constructor.
  - apply exchanges_app.
    + destruct Hcase as [(_ & -> & _) | (q & _ & -> & _)];
        [exact Hs | constructor].
    + apply exchanges_error; try reflexivity. constructor.
Qed.

Lemma citationToSource_shown (c : api.Citation) :
  site (citationToSource c) = lit "AsiaNxt" /\
  title (citationToSource c) <> lit "".
Proof.
  split; [reflexivity|]. unfold citationToSource. simpl.
  destruct (api.title c) as [[|x t]|]; simpl; discriminate.
Qed.

Lemma sources_of_app (l1 l2 : list Message) :
  sources_of (l1 ++ l2) = sources_of l1 ++ sources_of l2.
Proof. unfold sources_of. apply flat_map_app. Qed.

Lemma step_sources (s : ChatState) (t : Event * Env) (x : Source) :
  In x (sources_of (messages (step s t))) ->
  In x (sources_of (messages s)) \/ exists c, x = citationToSource c.
Proof.
  destruct t as [ev E]. unfold step. simpl fst. simpl snd.
  destruct (handled_course E s ev)
    as [s' Hm _ _ _ | c r keep q v _ Hcase | c e keep _ Hcase]; simpl.
  - rewrite Hm. now left.
  - rewrite sources_of_app. intros [Hin | Hin]%in_app_or.
    + destruct Hcase as [(_ & -> & _) | (_ & -> & _)];
        [now left | destruct Hin].
    + right. unfold sources_of in Hin. simpl in Hin.
      rewrite app_nil_r in Hin. apply in_map_iff in Hin as (c' & <- & _).
      now exists c'.
  - rewrite sources_of_app. intros [Hin | Hin]%in_app_or.
    + destruct Hcase as [(_ & -> & _) | (q & _ & -> & _)];
        [now left | destruct Hin].
    + destruct Hin.
Qed.

(** ** What an initial query does to the screen *)

(** X1.  An initial query is sent from any state, a pending request or a
    stored conversation identifier notwithstanding, and always without an
    identifier.  When it completes the transcript holds the new exchange
    alone, or the error entry alone: every earlier message is gone.  The
    input field keeps its value, and a failure leaves the stored
    identifier as it was. *)
Theorem initial_query_resets_transcript
    (E : Env) (q : jsstring) (s : ChatState) :
  calls (run E (handleInitialQuery q) s) = [generateCall q None] /\
  inputValue (final (run E (handleInitialQuery q) s)) = inputValue s /\
  (forall r, reply E (generateCall q None) = api.Resolved r ->
     messages (final (run E (handleInitialQuery q) s)) =
       [{| id := toString (now E 0); type := MessageType.user;
           content := q; sources := None |};
        {| id := toString (now E 1 + 1); type := MessageType.assistant;
           content := api.answer r;
           sources := Some (map citationToSource (api.citations r)) |}]) /\
  (forall e, reply E (generateCall q None) = api.Rejected e ->
     messages (final (run E (handleInitialQuery q) s)) =
       [{| id := toString (now E 0); type := MessageType.error;
           content := errorMessageOf e; sources := None |}] /\
     conversationId (final (run E (handleInitialQuery q) s)) =
       conversationId s).
Proof.
  destruct (reply E (generateCall q None)) as [r|e] eqn:Hr.
  - rewrite (initial_resolved E q s r Hr). simpl. repeat split.
    + now intros r' [= <-].
    + discriminate.
    + discriminate.
  - rewrite (initial_rejected E q s e Hr). simpl. repeat split.
    + discriminate.
    + now injection H as <-.
Qed.

(** ** The error state variable *)

(** X2.  A handler that makes a request sets the [error] state variable
    to null before it awaits.  When its call is rejected, on whatever
    state, the variable becomes the classified text, which is also the
    content of the error entry that then ends the transcript.  When its
    call is resolved the handler leaves the variable as it finds it: it
    is null after a resolved request handled in one piece, while the
    failure of another handler that overlapped stays on display. *)
Theorem error_state_mirrors_outcome
    (E : Env) (r s : ChatState) (p : Prog unit) :
  (p = handleSubmit r /\ isBlank (inputValue r) = false /\ loading r = false)
  \/ (exists q, p = handleInitialQuery q) ->
  exists c k,
    until_await E p s 0 =
      (Pending c k, with_error None (with_loading true s), 0%nat) /\
    (forall E' s' resp,
       error (final (exec E' (k (api.Resolved resp)) s' [] 0)) = error s') /\
    (forall E' s' e,
       exists pre m,
         messages (final (exec E' (k (api.Rejected e)) s' [] 0)) = pre ++ [m] /\
         type m = MessageType.error /\
         content m = errorMessageOf e /\
         error (final (exec E' (k (api.Rejected e)) s' [] 0)) =
           Some (content m)) /\
    (forall resp, reply E c = api.Resolved resp ->
       error (final (run E p s)) = None).
Proof.
  intros [(-> & Hb & Hl) | [q ->]].
  - unfold run, handleSubmit. rewrite (handleSubmit_body r Hb Hl). cbn.
    do 2 eexists. split; [reflexivity|]. split; [|split].
    + reflexivity.
    + intros E' s' e. exists (messages s').
      destruct e as [m|m|m|]; cbn; eexists; repeat split.
    + intros resp ->. reflexivity.
  - unfold run. cbn.
    do 2 eexists. split; [reflexivity|]. split; [|split].
    + reflexivity.
    + intros E' s' e. exists [].
      destruct e as [m|m|m|]; cbn; eexists; repeat split.
    + intros resp ->. reflexivity.
Qed.

Lemma error_state_mirrors_outcome_witness :
  exists pre m,
    messages (step typed_hello (Submit, env_offline)) = pre ++ [m] /\
    type m = MessageType.error /\
    content m = errorMessageOf (api.NetworkError (lit "offline")) /\
    error (step typed_hello (Submit, env_offline)) = Some (content m).
Proof.
  destruct (error_state_mirrors_outcome env_offline typed_hello typed_hello
              (handleSubmit typed_hello)
              (or_introl (conj eq_refl (conj eq_refl eq_refl))))
    as (c & k & Hk & _ & Hrej & _).
  injection Hk as <- <-.
  exact (Hrej env_offline (with_error None (with_loading true typed_hello))
           (api.NetworkError (lit "offline"))).
Defined.

(** X10.  The text shown for a failure is empty in one case only: a plain
    error whose message is empty.  API errors, network errors and thrown
    values that are no errors always give a non-empty entry. *)
Theorem error_entry_empty_only_for_empty_message
    (E : Env) (s : ChatState) (e : api.Thrown) :
  isBlank (inputValue s) = false ->
  loading s = false ->
  reply E (generateCall (inputValue s) (conversationId s)) = api.Rejected e ->
  exists m,
    messages (final (submit E s)) = messages s ++ [m] /\
    (content m = lit "" <-> e = api.Error (lit "")).
Proof.
  intros Hb Hl Hr. rewrite (submit_rejected E s e Hb Hl Hr). simpl.
  eexists. split; [reflexivity|]. simpl.
  destruct e as [m|m|m|]; simpl; split; try discriminate.
  - now intros ->.
  - now intros [= ->].
Qed.

Lemma error_entry_empty_only_for_empty_message_witness :
  exists m,
    messages (final (submit env_offline typed_hello)) =
      messages typed_hello ++ [m] /\
    (content m = lit "" <-> api.NetworkError (lit "offline") = api.Error (lit "")).
Proof.
  apply (error_entry_empty_only_for_empty_message env_offline typed_hello
           (api.NetworkError (lit "offline"))); reflexivity.
Defined.

(** ** What a submission can and cannot change *)

(** X3.  A submission only appends.  Whatever the state it completes on,
    the transcript of that state is kept in place and at most two
    messages follow it; the query sent, the identifier sent and the text
    of the user message are those of the render the handler was created
    in. *)
Theorem submit_extends_live_transcript (E : Env) (r s : ChatState) :
  exists suffix,
    messages (final (run E (handleSubmit r) s)) = messages s ++ suffix /\
    (List.length suffix <= 2)%nat /\
    (forall m, In m suffix -> type m = MessageType.user ->
               content m = inputValue r) /\
    (forall c, In c (calls (run E (handleSubmit r) s)) ->
               c = generateCall (inputValue r) (conversationId r)).
Proof.
  destruct (isBlank (inputValue r)) eqn:Hb.
  { rewrite (run_handleSubmit_skipped E r s (or_introl Hb)). simpl.
    exists []. rewrite app_nil_r. repeat split; auto; intros ? []. }
  destruct (loading r) eqn:Hl.
  { rewrite (run_handleSubmit_skipped E r s (or_intror Hl)). simpl.
    exists []. rewrite app_nil_r. repeat split; auto; intros ? []. }
  destruct (reply E (generateCall (inputValue r) (conversationId r)))
    as [resp|e] eqn:Hr.
  - rewrite (run_handleSubmit_resolved E r s resp Hb Hl Hr). simpl.
    eexists. split; [reflexivity|]. simpl. repeat split; auto.
    + intros m [<- | [<- | []]]; [reflexivity | discriminate].
    + now intros c [<- | []].
  - rewrite (run_handleSubmit_rejected E r s e Hb Hl Hr). simpl.
    eexists. split; [reflexivity|]. simpl. repeat split; auto.
    + intros m [<- | []]. discriminate.
    + now intros c [<- | []].
Qed.

(** X4.  No event makes the screen fail or retry: every handled event
    completes normally, a rejected request included, after at most one
    generate call; and an event that makes no call reads no clock and
    leaves the transcript alone. *)
Theorem handled_event_one_call_no_throw
    (E : Env) (s : ChatState) (ev : Event) :
  completion (run E (handler ev s) s) = Normal tt /\
  (List.length (calls (run E (handler ev s) s)) <= 1)%nat /\
  (calls (run E (handler ev s) s) = [] ->
   reads (run E (handler ev s) s) = 0%nat /\
   messages (final (run E (handler ev s) s)) = messages s).
Proof.
  destruct (handled_course E s ev)
    as [s' Hm _ _ _ | c r keep q v _ _ | c e keep _ _]; simpl;
    repeat split; auto; discriminate.
Qed.

(** ** Invariants of a session *)

(** X5.  Between two events of a session no request is pending: from the
    mounted screen, after any sequence of events each handled to
    completion, the loading flag is down. *)
Theorem session_ends_idle (l : list (Event * Env)) :
  loading (session l) = false.
Proof. now apply session_idle. Qed.

Lemma session_from_exchanges (l : list (Event * Env)) :
  forall s, exchanges (messages s) -> exchanges (messages (session_from s l)).
Proof.
  induction l as [|t l IH]; intros s Hs; [exact Hs|].
  unfold session_from. simpl fold_left. apply IH. now apply step_exchanges.
Qed.

(** X6.  The transcript of a session is made of exchanges: every user
    message is directly followed by its assistant message, every
    assistant message directly follows a user message, the assistant
    messages are the ones that carry a list of sources, and error entries
    stand alone. *)
Theorem session_transcript_exchanges (l : list (Event * Env)) :
  exchanges (messages (session l)).
Proof. apply session_from_exchanges. constructor. Qed.

(** X7.  Every source on the transcript of a session is labelled with
    the site "AsiaNxt" and has a title that is not empty. *)
Theorem session_sources_labelled (l : list (Event * Env)) (x : Source) :
  In x (sources_of (messages (session l))) ->
  site x = lit "AsiaNxt" /\ title x <> lit "".
Proof.
  unfold session.
  assert (H : forall y, In y (sources_of (messages initialState)) ->
                        site y = lit "AsiaNxt" /\ title y <> lit "")
    by (intros y []).
  revert H. generalize initialState.
  induction l as [|t l IH]; intros s Hs; [apply Hs|].
  unfold session_from. simpl fold_left. apply IH.
  intros y [Hy | [c ->]]%step_sources; [now apply Hs|].
  apply citationToSource_shown.
Qed.

Lemma session_sources_labelled_witness :
  site (citationToSource citation_untitled) = lit "AsiaNxt" /\
  title (citationToSource citation_untitled) <> lit "".
Proof.
  apply (session_sources_labelled
           [(Navigate (Some (lit "first")),
             env (api.Resolved
                    {| api.conversation_id := lit "c1";
                       api.answer := lit "Here is the answer.";
                       api.citations := [citation_untitled] |}) t0 t0)]).
  now left.
Defined.

Lemma conversation_id_step (s : ChatState) (t : Event * Env) :
  (exists r, conversationId (step s t) = Some (api.conversation_id r)) \/
  conversationId (step s t) = conversationId s.
Proof.
  destruct t as [ev E]. unfold step. simpl fst. simpl snd.
  destruct (handled_course E s ev)
    as [s' _ Hc _ _ | c r keep q v _ _ | c e keep _ _]; simpl; eauto.
Qed.

(** X8.  The stored conversation identifier changes only when a request
    is resolved, and then it becomes that response's identifier: typing,
    skipped submissions and rejected requests leave it as it was. *)
Theorem conversation_id_changes_on_resolve_only
    (s : ChatState) (t : Event * Env) :
  (exists r, resolved_by s t r /\
             conversationId (step s t) = Some (api.conversation_id r)) \/
  ((forall r, ~ resolved_by s t r) /\
   conversationId (step s t) = conversationId s).
Proof.
  destruct t as [ev E]. unfold resolved_by, step. simpl fst. simpl snd.
  destruct (handled_course E s ev)
    as [s' _ Hc _ _ | c r keep q v Hr _ | c e keep Hr _]; simpl.
  - right. split; [|exact Hc]. now intros r (c & [] & _).
  - left. exists r. split; [|reflexivity]. exists c. now split; [left|].
  - right. split; [|reflexivity].
    intros r (c' & [<- | []] & Hr'). congruence.
Qed.

(** X9.  Once a conversation identifier is stored, no later event of a
    session clears it: if none is stored at the end, none was stored at
    the start. *)
Theorem conversation_id_never_cleared
    (s : ChatState) (l : list (Event * Env)) :
  conversationId (session_from s l) = None -> conversationId s = None.
Proof.
  revert s. induction l as [|t l IH]; intros s H; [exact H|].
  unfold session_from in H. simpl fold_left in H. apply IH in H.
  destruct (conversation_id_step s t) as [[r Hr] | Hsame]; congruence.
Qed.

Lemma conversation_id_never_cleared_witness :
  conversationId (session_from typed_hello [(Submit, env_offline)]) = None /\
  conversationId typed_hello = None.
Proof.
  split; [reflexivity|].
  apply (conversation_id_never_cleared typed_hello [(Submit, env_offline)]).
  reflexivity.
Defined.

(** * Requests in flight *)

Section InFlight.

Variable E : Env.

(** Delivering an event either leaves the pending calls as they are, or
    adds one call whose handler has raised the loading flag.  What the
    guard of a submission reads is the render the event is delivered to. *)
Lemma deliver_cases (sc : Screen) (ev : Event) :
  rendered (act sc (Deliver ev, E)) = rendered sc /\
  ((inflight (act sc (Deliver ev, E)) = inflight sc /\
    loading (ui (act sc (Deliver ev, E))) = loading (ui sc) /\
    (ev = Submit -> ui (act sc (Deliver ev, E)) = ui sc)) \/
   (exists c k,
      inflight (act sc (Deliver ev, E)) = inflight sc ++ [(c, k)] /\
      finishing k /\
      loading (ui (act sc (Deliver ev, E))) = true /\
      ((ev = Submit /\ loading (rendered sc) = false /\
        isBlank (inputValue (rendered sc)) = false /\
        c = generateCall (inputValue (rendered sc))
              (conversationId (rendered sc))) \/
       (exists q, ev = Navigate (Some q) /\ c = generateCall q None)))).
Proof.
  unfold act, advance. simpl fst. simpl snd.
  destruct ev as [[[|x q]|] | v | ]; simpl handler.
  - split; [reflexivity|]. left. now repeat split.
  - cbn. split; [reflexivity|]. right.
    do 2 eexists. split; [reflexivity|]. split.
    + intros E' o s. destruct o as [r|[m|m|m|]]; cbn; now do 2 eexists.
    + split; [reflexivity|]. right. now exists (x :: q).
  - split; [reflexivity|]. left. now repeat split.
  - split; [reflexivity|]. left. simpl. repeat split. discriminate.
  - destruct (isBlank (inputValue (rendered sc))) eqn:Hb.
    { rewrite (handleSubmit_skipped (rendered sc) (or_introl Hb)). simpl.
      split; [reflexivity|]. left. now repeat split. }
    destruct (loading (rendered sc)) eqn:Hl.
    { rewrite (handleSubmit_skipped (rendered sc) (or_intror Hl)). simpl.
      split; [reflexivity|]. left. now repeat split. }
    unfold handleSubmit. rewrite (handleSubmit_body (rendered sc) Hb Hl).
    cbn. split; [reflexivity|]. right.
    do 2 eexists. split; [reflexivity|]. split.
    + intros E' o s. destruct o as [r|[m|m|m|]]; cbn; now do 2 eexists.
    + split; [reflexivity|]. left. now repeat split.
Qed.

Lemma remove_nth_length {A : Type} (l : list A) :
  forall (i : nat) (x : A),
    nth_error l i = Some x -> S (List.length (remove_nth i l)) = List.length l.
Proof.
  induction l as [|y l IH]; intros [|i] x H; simpl in *; try discriminate.
  - reflexivity.
  - f_equal. now apply IH with x.
Qed.

Lemma remove_nth_Forall {A : Type} (P : A -> Prop) (l : list A) :
  forall i, Forall P l -> Forall P (remove_nth i l).
Proof.
  induction l as [|y l IH]; intros [|i] H; simpl; auto;
    inversion H; subst; auto.
Qed.

Lemma act_settle (sc : Screen) (i : nat) :
  act sc (Settle i, E) =
    match nth_error (inflight sc) i with
    | Some (c, k) =>
        advance E (k (reply E c))
          {| ui := ui sc; rendered := rendered sc;
             inflight := remove_nth i (inflight sc) |}
    | None => sc
    end.
Proof. reflexivity. Qed.

(** Settling a call whose handler is finishing takes it off the list and
    lowers the flag. *)
Lemma settle_cases (sc : Screen) (i : nat) (c : api.Call)
    (k : api.Outcome -> Prog unit) :
  nth_error (inflight sc) i = Some (c, k) -> finishing k ->
  inflight (act sc (Settle i, E)) = remove_nth i (inflight sc) /\
  loading (ui (act sc (Settle i, E))) = false.
Proof.
  intros Hn Hk. rewrite act_settle, Hn.
  unfold advance. simpl ui. destruct (Hk E (reply E c) (ui sc)) as (s' & n & -> & Hl).
  now split.
Qed.

Lemma act_finishing (sc : Screen) (a : Action) :
  Forall (fun ck => finishing (snd ck)) (inflight sc) ->
  Forall (fun ck => finishing (snd ck)) (inflight (act sc (a, E))).
Proof.
  intros H. destruct a as [ | ev | i].
  - exact H.
  - destruct (deliver_cases sc ev)
      as [_ [(-> & _) | (c & k & -> & Hk & _)]]; [exact H|].
    apply Forall_app. split; [exact H|]. now repeat constructor.
  - destruct (nth_error (inflight sc) i) as [[c k]|] eqn:Hn.
    + assert (Hk : finishing k).
      { rewrite Forall_forall in H.
        exact (H (c, k) (nth_error_In _ _ Hn)). }
      destruct (settle_cases sc i c k Hn Hk) as [-> _].
      now apply remove_nth_Forall.
    + now rewrite act_settle, Hn.
Qed.

End InFlight.

Lemma play_finishing (l : list (Action * Env)) :
  forall sc,
    Forall (fun ck => finishing (snd ck)) (inflight sc) ->
    Forall (fun ck => finishing (snd ck)) (inflight (play_from sc l)).
Proof.
  induction l as [|[a E] l IH]; intros sc H; [exact H|].
  unfold play_from. simpl fold_left. apply IH. now apply act_finishing.
Qed.

Lemma play_from_single_flight (l : list (Action * Env)) :
  forall (sc : Screen) (fresh : bool),
    Forall manual l -> rendered_in_time fresh l ->
    (fresh = true -> rendered sc = ui sc) ->
    Forall (fun ck => finishing (snd ck)) (inflight sc) ->
    single_flight sc -> single_flight (play_from sc l).
Proof.
  induction l as [|[a E] l IH]; intros sc fresh Hm Ht Hr Hf J; [exact J|].
  inversion Hm as [|? ? Ha Hm']; subst.
  unfold play_from. simpl fold_left.
  pose proof (act_finishing E sc a Hf) as Hf'.
  destruct a as [ | ev | i]; simpl in Ht.
  - apply (IH _ true); auto.
  - destruct Ht as [-> Ht]. apply (IH _ false); auto; [discriminate|].
    destruct (deliver_cases E sc ev)
      as [_ [(Hin & Hl & _) | (c & k & Hin & _ & Hl & Hev)]];
      unfold single_flight; rewrite Hin, Hl; [exact J|].
    right. split; [reflexivity|].
    destruct Hev as [(_ & Hl' & _) | (q & -> & _)]; [|destruct Ha].
    rewrite (Hr eq_refl) in Hl'.
    destruct J as [[_ ->] | [Hl'' _]]; [|congruence]. now exists (c, k).
  - apply (IH _ false); auto; [discriminate|].
    destruct (nth_error (inflight sc) i) as [[c k]|] eqn:Hn.
    + assert (Hk : finishing k).
      { rewrite Forall_forall in Hf.
        exact (Hf (c, k) (nth_error_In _ _ Hn)). }
      destruct (settle_cases E sc i c k Hn Hk) as [Hin Hl].
      left. rewrite Hin, Hl. split; [reflexivity|].
      destruct J as [[_ Hnil] | [_ [x Hx]]].
      * rewrite Hnil in Hn. now destruct i.
      * rewrite Hx in *. destruct i as [|[|i]]; simpl in *;
          try discriminate; reflexivity.
    + now rewrite act_settle, Hn.
Qed.

Lemma manual_play_invariant (l : list (Action * Env)) :
  Forall manual l -> rendered_in_time true l -> single_flight (play l).
Proof.
  intros Hm Ht.
  apply (play_from_single_flight l mounted true);
    [exact Hm | exact Ht | reflexivity | constructor | now left].
Qed.

(** X11.  As long as no initial query arrives and the component has
    rendered before each event is delivered, the guard keeps at most one
    request in flight: after any such sequence of renders, typing,
    submitting and settling from the mounted screen, at most one call is
    pending, and the loading flag is up exactly when one is. *)
Theorem manual_play_single_flight (l : list (Action * Env)) :
  Forall manual l ->
  rendered_in_time true l ->
  (List.length (inflight (play l)) <= 1)%nat /\
  (loading (ui (play l)) = true <-> inflight (play l) <> []).
Proof.
  intros Hm Ht.
  destruct (manual_play_invariant l Hm Ht) as [[Hl ->] | [Hl [x ->]]];
    rewrite Hl; simpl; split; auto.
  - split; [discriminate | now intros H].
  - split; [discriminate | reflexivity].
Qed.

Lemma manual_play_single_flight_witness :
  Forall manual manual_actions /\
  rendered_in_time true manual_actions /\
  (List.length (inflight (play manual_actions)) <= 1)%nat /\
  (loading (ui (play manual_actions)) = true <->
   inflight (play manual_actions) <> []).
Proof.
  assert (H : Forall manual manual_actions)
    by (repeat constructor).
  assert (H' : rendered_in_time true manual_actions)
    by (simpl; tauto).
  split; [exact H|]. split; [exact H'|].
  exact (manual_play_single_flight manual_actions H H').
Defined.

(** X22.  The guard reads the loading flag of the render the handler
    belongs to, not the live one: two submit events that reach the same
    render both pass it, and each puts a call in flight. *)
Theorem stale_render_admits_second_submit (sc : Screen) (E1 E2 : Env) :
  isBlank (inputValue (rendered sc)) = false ->
  loading (rendered sc) = false ->
  exists k1 k2,
    inflight (act (act sc (Deliver Submit, E1)) (Deliver Submit, E2)) =
      inflight sc ++
        [(generateCall (inputValue (rendered sc))
            (conversationId (rendered sc)), k1);
         (generateCall (inputValue (rendered sc))
            (conversationId (rendered sc)), k2)].
Proof.
  intros Hb Hl. unfold act, advance. cbn [fst snd handler].
  unfold handleSubmit. rewrite (handleSubmit_body (rendered sc) Hb Hl). cbn.
  rewrite (handleSubmit_body (rendered sc) Hb Hl). cbn.
  do 2 eexists. rewrite <- app_assoc. reflexivity.
Qed.

Lemma stale_render_admits_second_submit_witness :
  List.length (inflight (play hasty_actions)) = 2%nat.
Proof.
  destruct (stale_render_admits_second_submit
              (play [(Deliver (Change (lit "hello")), env_ok);
                     (Render, env_ok)])
              env_ok env_ok eq_refl eq_refl) as (k1 & k2 & H).
  change (play hasty_actions)
    with (act (act (play [(Deliver (Change (lit "hello")), env_ok);
                          (Render, env_ok)])
                 (Deliver Submit, env_ok)) (Deliver Submit, env_ok)).
  now rewrite H.
Defined.

(** X12.  Settling any pending call, in any order, finishes its handler
    in that step: the call leaves the list and the loading flag goes
    down, whether or not other calls are still in flight. *)
Theorem settle_finishes_and_lowers_flag
    (l : list (Action * Env)) (i : nat) (E : Env) :
  (i < List.length (inflight (play l)))%nat ->
  loading (ui (act (play l) (Settle i, E))) = false /\
  S (List.length (inflight (act (play l) (Settle i, E)))) =
    List.length (inflight (play l)).
Proof.
  intros Hi.
  destruct (nth_error (inflight (play l)) i) as [[c k]|] eqn:Hn.
  - assert (Hf : Forall (fun ck => finishing (snd ck)) (inflight (play l))).
    { apply play_finishing. constructor. }
    assert (Hk : finishing k).
    { rewrite Forall_forall in Hf.
      exact (Hf (c, k) (nth_error_In _ _ Hn)). }
    destruct (settle_cases E (play l) i c k Hn Hk) as [-> ->].
    split; [reflexivity|]. now apply remove_nth_length with (c, k).
  - apply nth_error_None in Hn. lia.
Qed.

Lemma settle_finishes_and_lowers_flag_witness :
  (0 < List.length (inflight (play overlapping_actions)))%nat /\
  loading (ui (act (play overlapping_actions) (Settle 0, env_ok))) = false /\
  S (List.length (inflight (act (play overlapping_actions)
                              (Settle 0, env_ok)))) =
    List.length (inflight (play overlapping_actions)).
Proof.
  assert (H : (0 < List.length (inflight (play overlapping_actions)))%nat)
    by (simpl; lia).
  split; [exact H|].
  exact (settle_finishes_and_lowers_flag overlapping_actions 0 env_ok H).
Defined.

(** X13.  An initial query is not held back by the guard.  Arriving
    while calls are pending it is sent all the same, and as soon as any
    of the pending calls is settled the loading flag is down although a
    call is still in flight. *)
Theorem initial_query_overlaps_pending
    (l : list (Action * Env)) (q : jsstring) (E E' : Env) (i : nat) :
  q <> lit "" ->
  inflight (play l) <> [] ->
  (i <= List.length (inflight (play l)))%nat ->
  List.length (inflight (act (play l) (Deliver (Navigate (Some q)), E))) =
    S (List.length (inflight (play l))) /\
  loading (ui (act (act (play l) (Deliver (Navigate (Some q)), E))
                 (Settle i, E'))) = false /\
  inflight (act (act (play l) (Deliver (Navigate (Some q)), E))
              (Settle i, E')) <> [].
Proof.
  intros Hq Hne Hi.
  assert (Hf : Forall (fun ck => finishing (snd ck)) (inflight (play l))).
  { apply play_finishing. constructor. }
  pose proof (act_finishing E (play l) (Deliver (Navigate (Some q))) Hf)
    as Hf1.
  destruct (deliver_cases E (play l) (Navigate (Some q)))
    as [_ [(Hsame & _) | (c & k & Hadd & _)]].
  { exfalso. destruct q as [|x q]; [now elim Hq|].
    revert Hsame. unfold act, advance. cbn.
    intros H. apply (f_equal (@List.length _)) in H.
    rewrite length_app in H. simpl in H. lia. }
  set (sc1 := act (play l) (Deliver (Navigate (Some q)), E)) in *.
  assert (Hlen : List.length (inflight sc1) = S (List.length (inflight (play l)))).
  { rewrite Hadd, length_app. simpl. lia. }
  split; [exact Hlen|].
  destruct (nth_error (inflight sc1) i) as [[c' k']|] eqn:Hn.
  - assert (Hk : finishing k').
    { rewrite Forall_forall in Hf1.
      exact (Hf1 (c', k') (nth_error_In _ _ Hn)). }
    destruct (settle_cases E' sc1 i c' k' Hn Hk) as [Hin ->].
    split; [reflexivity|]. intros Hnil. rewrite Hnil in Hin.
    pose proof (remove_nth_length (inflight sc1) i (c', k') Hn) as Hr.
    rewrite <- Hin in Hr. simpl in Hr.
    destruct (inflight (play l)); [now elim Hne | simpl in *; lia].
  - apply nth_error_None in Hn. lia.
Qed.

Lemma initial_query_overlaps_pending_witness :
  List.length
    (inflight (act (play manual_actions)
                 (Deliver (Navigate (Some (lit "next"))), env_ok))) = 2%nat /\
  loading (ui (act (act (play manual_actions)
                      (Deliver (Navigate (Some (lit "next"))), env_ok))
                 (Settle 1, env_offline))) = false /\
  inflight (act (act (play manual_actions)
                   (Deliver (Navigate (Some (lit "next"))), env_ok))
              (Settle 1, env_offline)) <> [].
Proof.
  apply (initial_query_overlaps_pending manual_actions (lit "next")
           env_ok env_offline 1).
  - discriminate.
  - discriminate.
  - simpl. lia.
Defined.

(** X14.  Handling an event in one piece is the same as delivering it
    and settling its call at once: on a freshly rendered screen with
    nothing in flight, the state after both steps is the state after the
    run to completion, and nothing is left in flight. *)
Theorem deliver_then_settle_is_step
    (E : Env) (s : ChatState) (ev : Event) :
  act (act {| ui := s; rendered := s; inflight := [] |} (Deliver ev, E))
      (Settle 0, E) =
    {| ui := step s (ev, E); rendered := s; inflight := [] |}.
Proof.
  unfold step, run. simpl fst. simpl snd.
  destruct ev as [[[|x q]|] | v | ]; try reflexivity.
  - unfold act, advance. cbn.
    destruct (reply E _) as [r|[m|m|m|]]; reflexivity.
  - unfold act, advance. cbn [fst snd handler ui rendered].
    destruct (isBlank (inputValue s)) eqn:Hb.
    { now rewrite (handleSubmit_skipped s (or_introl Hb)). }
    destruct (loading s) eqn:Hl.
    { now rewrite (handleSubmit_skipped s (or_intror Hl)). }
    unfold handleSubmit. rewrite (handleSubmit_body s Hb Hl). cbn.
    destruct (reply E _) as [r|[m|m|m|]]; reflexivity.
Qed.

(** * The rendered screen *)

Lemma filter_flat_map {A B} (f : B -> bool) (g : A -> list B) (l : list A) :
  filter f (flat_map g l) = flat_map (fun x => filter f (g x)) l.
Proof.
  induction l as [|x l IH]; simpl; [reflexivity|].
  now rewrite filter_app, IH.
Qed.

Lemma flat_map_map {A B C} (f : B -> list C) (g : A -> B) (l : list A) :
  flat_map f (map g l) = flat_map (fun x => f (g x)) l.
Proof. induction l as [|x l IH]; simpl; [reflexivity|]. now rewrite IH. Qed.

Lemma by_tag_element (t tag : string) (k : option jsstring)
    (p : list (string * PropValue)) (ch : list Element) :
  by_tag t (element tag k p ch) =
    (if String.eqb tag t then [element tag k p ch] else []) ++
    flat_map (by_tag t) ch.
Proof.
  unfold by_tag. simpl. rewrite filter_flat_map.
  now destruct (String.eqb tag t).
Qed.

Lemma by_tag_text (t : string) (s : jsstring) : by_tag t (text s) = [].
Proof. reflexivity. Qed.

Arguments by_tag : simpl never.

Ltac tags :=
  unfold el;
  repeat (progress (rewrite ?by_tag_element, ?by_tag_text;
                    cbn [flat_map app String.eqb Ascii.eqb Bool.eqb andb])).

Lemma by_tag_a_cards (l : list Source) :
  forall i, flat_map (by_tag "a") (mapi_from i renderSource l) =
            mapi_from i renderSource l.
Proof.
  induction l as [|x l IH]; intros i; simpl; [reflexivity|].
  rewrite IH. unfold renderSource at 1. tags. reflexivity.
Qed.

(** Tags that occur in no source card. *)
Lemma by_tag_other_cards (t : string) (l : list Source) :
  In t ["LoadingSpinner"; "input"; "button"; "span"; "form"; "h3";
        "AlertCircle"; "MessageSquare"]%string ->
  forall i, flat_map (by_tag t) (mapi_from i renderSource l) = [].
Proof.
  intros Ht. induction l as [|x l IH]; intros i; simpl; [reflexivity|].
  rewrite IH, app_nil_r. unfold renderSource.
  repeat (destruct Ht as [<- | Ht]; [now tags|]). destruct Ht.
Qed.

Lemma by_tag_a_message (m : Message) :
  by_tag "a" (renderMessage m) =
    match sources m with Some src => mapi renderSource src | None => [] end.
Proof.
  unfold renderMessage. tags.
  destruct (isType m MessageType.user), (isType m MessageType.error); tags.
  all: destruct (sources m) as [src|]; simpl; tags; try reflexivity.
  all: unfold mapi; rewrite by_tag_a_cards; now rewrite !app_nil_r.
Qed.

(** Tags that occur in no transcript entry. *)
Lemma by_tag_other_message (t : string) (m : Message) :
  In t ["LoadingSpinner"; "input"; "button"; "span"; "form"]%string ->
  by_tag t (renderMessage m) = [].
Proof.
  intros Ht.
  assert (Hc : forall src i,
             flat_map (by_tag t) (mapi_from i renderSource src) = []).
  { intros src i. apply by_tag_other_cards. simpl in *. tauto. }
  unfold renderMessage, renderSources, mapi.
  repeat (destruct Ht as [<- | Ht];
          [destruct (isType m MessageType.user),
                    (isType m MessageType.error),
                    (sources m) as [src|]; tags; rewrite ?Hc; reflexivity|]).
  destruct Ht.
Qed.

Lemma by_tag_messages (t : string) (b : list Element) (ms : list Message) :
  flat_map (by_tag t) (map renderMessage ms ++ b) =
    flat_map (fun m => by_tag t (renderMessage m)) ms ++ flat_map (by_tag t) b.
Proof. now rewrite flat_map_app, flat_map_map. Qed.

Arguments renderMessage : simpl never.
Arguments renderSpinner : simpl never.
Arguments renderForm : simpl never.


Lemma by_tag_a_render (s : ChatState) :
  by_tag "a" (render s) = cards (messages s).
Proof.
  unfold render, renderForm. tags. rewrite by_tag_messages.
  rewrite !app_nil_r. unfold cards.
  replace (flat_map (by_tag "a") (renderSpinner (loading s))) with (@nil Element).
  - rewrite app_nil_r. apply flat_map_ext. intros m. apply by_tag_a_message.
  - unfold renderSpinner. now destruct (loading s); tags.
Qed.

Lemma flat_map_nil {A B} (f : A -> list B) (l : list A) :
  (forall x, In x l -> f x = []) -> flat_map f l = [].
Proof.
  induction l as [|x l IH]; intros H; simpl; [reflexivity|].
  rewrite (H x (or_introl eq_refl)), IH; [reflexivity|].
  intros y Hy. apply H. now right.
Qed.

Lemma in_mapi_from {A B} (f : A -> nat -> B) (l : list A) :
  forall i y, In y (mapi_from i f l) -> exists x j, y = f x j /\ In x l.
Proof.
  induction l as [|x l IH]; intros i y; simpl; [intros []|].
  intros [<- | H]; [exists x, i; auto|].
  destruct (IH _ _ H) as (x' & j & -> & Hin). exists x', j; auto.
Qed.

Lemma map_mapi_from {A B C} (f : B -> C) (h : A -> nat -> B) (g : A -> C)
    (l : list A) :
  (forall x j, f (h x j) = g x) ->
  forall i, map f (mapi_from i h l) = map g l.
Proof.
  intros H. induction l as [|x l IH]; intros i; simpl; [reflexivity|].
  now rewrite H, IH.
Qed.

Lemma map_cards {C} (f : Element -> C) (g : Source -> C) (l : list Message) :
  (forall x j, f (renderSource x j) = g x) ->
  map f (cards l) = map g (sources_of l).
Proof.
  intros H. unfold cards, sources_of.
  induction l as [|m l IH]; simpl; [reflexivity|].
  rewrite !map_app, IH. f_equal.
  destruct (sources m) as [src|]; [|reflexivity].
  now apply map_mapi_from.
Qed.

Lemma in_cards (a : Element) (l : list Message) :
  In a (cards l) -> exists x j, a = renderSource x j.
Proof.
  unfold cards. intros (m & _ & Hin)%in_flat_map.
  destruct (sources m) as [src|]; [|destruct Hin].
  destruct (in_mapi_from renderSource src 0 a Hin) as (x & j & -> & _).
  now exists x, j.
Qed.

(** X15.  Every source on the transcript is shown as one card, in
    transcript order, and nothing else on the screen is a link: the card
    links to the source's url, shows its number, its title and its site,
    and opens in a new context without access to the opener
    ([target="_blank"] with [rel="noopener noreferrer"]). *)
Theorem source_cards_faithful (s : ChatState) :
  map (prop "href") (by_tag "a" (render s)) =
    map (fun x => Some (Str (url x))) (sources_of (messages s)) /\
  map texts (by_tag "a" (render s)) =
    map (fun x => [toString (number x); title x; site x])
      (sources_of (messages s)) /\
  (forall a, In a (by_tag "a" (render s)) ->
     prop "target" a = Some (Str (lit "_blank")) /\
     prop "rel" a = Some (Str (lit "noopener noreferrer"))).
Proof.
  rewrite by_tag_a_render. split; [|split].
  - now apply map_cards.
  - now apply map_cards.
  - intros a (x & j & ->)%in_cards. now split.
Qed.

Lemma by_tag_render_controls (t : string) (s : ChatState) :
  In t ["LoadingSpinner"; "input"; "button"; "span"; "form"]%string ->
  by_tag t (render s) =
    flat_map (by_tag t) (renderSpinner (loading s)) ++ by_tag t (renderForm s).
Proof.
  intros Ht.
  assert (Hm : flat_map (fun m => by_tag t (renderMessage m)) (messages s) = []).
  { apply flat_map_nil. intros m _. now apply by_tag_other_message. }
  unfold render.
  repeat (destruct Ht as [<- | Ht];
          [unfold el; repeat (progress (rewrite ?by_tag_element; simpl));
           rewrite by_tag_messages, Hm; simpl; now rewrite !app_nil_r|]).
  destruct Ht.
Qed.

Lemma render_controls (s : ChatState) :
  exists input button,
    by_tag "input" (render s) = [input] /\
    by_tag "button" (render s) = [button] /\
    prop "value" input = Some (Str (inputValue s)) /\
    prop "disabled" input = Some (Bool (loading s)) /\
    prop "disabled" button = Some (Bool (loading s)) /\
    texts button = [if loading s then lit "Sending..." else lit "Send"] /\
    List.length (by_tag "LoadingSpinner" (render s)) =
      (if loading s then 1 else 0)%nat.
Proof.
  rewrite !by_tag_render_controls by (simpl; tauto).
  unfold renderSpinner, renderForm.
  destruct (loading s); tags; do 2 eexists; repeat split.
Qed.

(** X16.  Whatever is on the transcript, the screen has exactly one input
    and one button.  The input shows the input value; both are disabled
    exactly when the loading flag is up, the button then reads
    "Sending..." instead of "Send", and the spinner is shown then and only
    then. *)
Theorem controls_follow_loading (s : ChatState) :
  exists input button,
    by_tag "input" (render s) = [input] /\
    by_tag "button" (render s) = [button] /\
    prop "value" input = Some (Str (inputValue s)) /\
    prop "disabled" input = Some (Bool (loading s)) /\
    prop "disabled" button = Some (Bool (loading s)) /\
    texts button = [if loading s then lit "Sending..." else lit "Send"] /\
    List.length (by_tag "LoadingSpinner" (render s)) =
      (if loading s then 1 else 0)%nat.
Proof. apply render_controls. Qed.

Lemma card_divs_unkeyed (l : list Source) :
  forall i,
    flat_map keyf (flat_map (by_tag "div") (mapi_from i renderSource l)) = [].
Proof.
  induction l as [|x l IH]; intros i; cbn [mapi_from flat_map];
    [reflexivity|].
  rewrite flat_map_app, IH, app_nil_r. unfold renderSource. now tags.
Qed.

Lemma entry_keys_message (m : Message) :
  flat_map keyf (by_tag "div" (renderMessage m)) = [id m].
Proof.
  unfold renderMessage, renderSources, mapi.
  destruct (isType m MessageType.user), (isType m MessageType.error),
           (sources m) as [src|]; tags; try reflexivity.
  all: rewrite !app_nil_r; cbn [flat_map keyf key_of app];
    now rewrite card_divs_unkeyed.
Qed.

Lemma by_tag_div_render (s : ChatState) :
  exists pre post,
    by_tag "div" (render s) =
      pre ++ flat_map (fun m => by_tag "div" (renderMessage m)) (messages s)
          ++ post /\
    flat_map keyf pre = [] /\ flat_map keyf post = [].
Proof.
  unfold render, renderForm. tags.
  rewrite by_tag_messages, !app_nil_r, <- app_assoc.
  eexists [_; _], _. split; [reflexivity|]. split; [reflexivity|].
  unfold renderSpinner. now destruct (loading s); tags.
Qed.

Lemma entry_keys_render (s : ChatState) :
  entry_keys (render s) = map id (messages s).
Proof.
  unfold entry_keys.
  destruct (by_tag_div_render s) as (pre & post & -> & Hpre & Hpost).
  rewrite !flat_map_app, Hpre, Hpost, app_nil_r. cbn [app].
  induction (messages s) as [|m l IH]; cbn [flat_map map]; [reflexivity|].
  now rewrite flat_map_app, entry_keys_message, IH.
Qed.

Lemma card_keys (l : list Source) :
  forall i, map key_of (mapi_from i renderSource l) =
            map (fun j => Some (toString (Z.of_nat j))) (seq i (List.length l)).
Proof.
  induction l as [|x l IH]; intros i; simpl; [reflexivity|]. now rewrite IH.
Qed.

Lemma toString_nat_inj (i j : nat) :
  Some (toString (Z.of_nat i)) = Some (toString (Z.of_nat j)) -> i = j.
Proof. intros [= H%toString_inj]. lia. Qed.

Lemma NoDup_map_inj {A B} (f : A -> B) (l : list A) :
  (forall x y, f x = f y -> x = y) -> NoDup l -> NoDup (map f l).
Proof.
  intros Hf H. induction H as [|x l Hx _ IH]; simpl; constructor; auto.
  intros (y & Hy%Hf & Hin)%in_map_iff. now subst.
Qed.

(** X19.  Within one transcript entry the keys of the source cards are
    their positions 0, 1, 2, ...: they are pairwise distinct whatever the
    citations were, also when two citations share a number or a url. *)
Theorem card_keys_distinct (m : Message) :
  NoDup (map key_of (by_tag "a" (renderMessage m))) /\
  map key_of (by_tag "a" (renderMessage m)) =
    match sources m with
    | Some src =>
        map (fun j => Some (toString (Z.of_nat j))) (seq 0 (List.length src))
    | None => []
    end.
Proof.
  rewrite by_tag_a_message.
  destruct (sources m) as [src|]; simpl; [|split; [constructor | reflexivity]].
  unfold mapi. rewrite card_keys. split; [|reflexivity].
  apply NoDup_map_inj; [apply toString_nat_inj | apply seq_NoDup].
Qed.

Lemma by_tag_h3_message (m : Message) :
  map texts (by_tag "h3" (renderMessage m)) =
    match sources m with Some _ => [[lit "Sources:"]] | None => [] end.
Proof.
  unfold renderMessage, renderSources, mapi.
  assert (Hc : forall src i,
             flat_map (by_tag "h3") (mapi_from i renderSource src) = []).
  { intros src i. apply by_tag_other_cards. simpl. tauto. }
  destruct (isType m MessageType.user), (isType m MessageType.error),
           (sources m) as [src|]; tags; rewrite ?Hc; reflexivity.
Qed.

Lemma by_tag_h3_render (s : ChatState) :
  map texts (by_tag "h3" (render s)) =
    flat_map (fun m => match sources m with
                       | Some _ => [[lit "Sources:"]]
                       | None => []
                       end) (messages s).
Proof.
  unfold render, renderForm. tags. rewrite by_tag_messages, !app_nil_r.
  replace (flat_map (by_tag "h3") (renderSpinner (loading s)))
    with (@nil Element)
    by (unfold renderSpinner; now destruct (loading s); tags).
  rewrite app_nil_r.
  induction (messages s) as [|m l IH]; cbn [flat_map map]; [reflexivity|].
  now rewrite map_app, by_tag_h3_message, IH.
Qed.

Lemma exchanges_blocks (l : list Message) :
  exchanges l ->
  flat_map (fun m => match sources m with
                     | Some _ => [[lit "Sources:"]]
                     | None => []
                     end) l =
  map (fun _ => [lit "Sources:"])
    (filter (fun m => isType m MessageType.assistant) l).
Proof.
  induction 1 as [| u a src l Hu Hsu Ha Hsa _ IH | m l Hm Hsm _ IH]; simpl.
  - reflexivity.
  - unfold isType. rewrite Hu, Ha, Hsu, Hsa. simpl. now rewrite IH.
  - unfold isType. rewrite Hm, Hsm. simpl. now rewrite IH.
Qed.

Lemma by_tag_icons_message (m : Message) :
  List.length (by_tag "AlertCircle" (renderMessage m)) =
    (if isType m MessageType.error then 1 else 0)%nat /\
  List.length (by_tag "MessageSquare" (renderMessage m)) =
    (if isType m MessageType.assistant then 1 else 0)%nat.
Proof.
  assert (Hc : forall t src i,
             In t ["AlertCircle"; "MessageSquare"]%string ->
             flat_map (by_tag t) (mapi_from i renderSource src) = []).
  { intros t src i Ht. apply by_tag_other_cards. simpl in *. tauto. }
  unfold renderMessage, renderSources, mapi, isType.
  destruct (type m), (sources m) as [src|]; tags;
    rewrite ?Hc by (simpl; tauto); now split.
Qed.

Lemma length_flat_map_count {A B} (f : A -> list B) (p : A -> bool)
    (l : list A) :
  (forall x, List.length (f x) = if p x then 1 else 0)%nat ->
  List.length (flat_map f l) = List.length (filter p l).
Proof.
  intros H. induction l as [|x l IH]; cbn [flat_map filter]; [reflexivity|].
  rewrite length_app, H, IH. now destruct (p x).
Qed.

(** X21.  The icon of an entry follows its role alone: the screen shows
    as many alert icons as there are error entries and as many message
    icons as there are assistant entries, whatever else the messages
    hold. *)
Theorem icons_follow_type (s : ChatState) :
  List.length (by_tag "AlertCircle" (render s)) =
    List.length (filter (fun m => isType m MessageType.error) (messages s)) /\
  List.length (by_tag "MessageSquare" (render s)) =
    List.length (filter (fun m => isType m MessageType.assistant) (messages s)).
Proof.
  unfold render, renderForm. tags. rewrite !by_tag_messages, !app_nil_r.
  replace (flat_map (by_tag "AlertCircle") (renderSpinner (loading s)))
    with (@nil Element)
    by (unfold renderSpinner; now destruct (loading s); tags).
  replace (flat_map (by_tag "MessageSquare") (renderSpinner (loading s)))
    with (@nil Element)
    by (unfold renderSpinner; now destruct (loading s); tags).
  rewrite !app_nil_r. split; apply length_flat_map_count; intros m;
    apply by_tag_icons_message.
Qed.

(** X17.  As long as no initial query arrives and the component has
    rendered before each event is delivered, what the component renders
    tells whether a request is in flight: with none pending there is no
    spinner and the input and the "Send" button are enabled; with one
    pending the spinner is shown, both are disabled and the button reads
    "Sending...". *)
Theorem screen_tells_request_in_flight (l : list (Action * Env)) :
  Forall manual l ->
  rendered_in_time true l ->
  exists input button,
    by_tag "input" (render (ui (play l))) = [input] /\
    by_tag "button" (render (ui (play l))) = [button] /\
    match inflight (play l) with
    | [] =>
        by_tag "LoadingSpinner" (render (ui (play l))) = [] /\
        prop "disabled" input = Some (Bool false) /\
        prop "disabled" button = Some (Bool false) /\
        texts button = [lit "Send"]
    | _ :: _ =>
        List.length (by_tag "LoadingSpinner" (render (ui (play l)))) = 1%nat /\
        prop "disabled" input = Some (Bool true) /\
        prop "disabled" button = Some (Bool true) /\
        texts button = [lit "Sending..."]
    end.
Proof.
  intros Hm Ht.
  destruct (render_controls (ui (play l)))
    as (input & button & Hi & Hb & _ & Hdi & Hdb & Htx & Hs).
  exists input, button. split; [exact Hi|]. split; [exact Hb|].
  destruct (manual_play_invariant l Hm Ht) as [[Hl ->] | [Hl [x ->]]];
    rewrite Hl in *; repeat split; auto.
  now destruct (by_tag "LoadingSpinner" (render (ui (play l)))).
Qed.

Lemma screen_tells_request_in_flight_witness :
  exists input button,
    by_tag "input" (render (ui (play manual_actions))) = [input] /\
    by_tag "button" (render (ui (play manual_actions))) = [button] /\
    List.length
      (by_tag "LoadingSpinner" (render (ui (play manual_actions)))) = 1%nat /\
    prop "disabled" input = Some (Bool true) /\
    prop "disabled" button = Some (Bool true) /\
    texts button = [lit "Sending..."].
Proof.
  exact (screen_tells_request_in_flight manual_actions
           ltac:(repeat constructor) ltac:(simpl; tauto)).
Defined.

(** X18.  The key of a transcript entry is the identifier of its
    message, so the keys of the screen are the identifiers in transcript
    order; over a session whose clock is spaced they are pairwise
    distinct. *)
Theorem entry_keys_are_message_ids (start : Z) (l : list (Event * Env)) :
  spaced start l ->
  (forall s, entry_keys (render s) = map id (messages s)) /\
  NoDup (entry_keys (render (session l))).
Proof.
  intros Hsp. split; [exact entry_keys_render|].
  rewrite entry_keys_render.
  destruct (session_from_fresh l initialState start
              (fresh_below_nil start) Hsp) as [b [Hnd _]].
  exact Hnd.
Qed.

Lemma entry_keys_are_message_ids_witness :
  spaced t0 paced_exchanges /\
  NoDup (entry_keys (render (session paced_exchanges))).
Proof.
  assert (Hsp : spaced t0 paced_exchanges).
  { cbv [spaced paced_exchanges env_ok env now t0]. lia. }
  split; [exact Hsp|].
  exact (proj2 (entry_keys_are_message_ids t0 paced_exchanges Hsp)).
Defined.

(** X20.  In a session the heading "Sources:" is shown once for every
    assistant message and for no other entry.  It is shown also for an
    answer without citations: the entry of an assistant message always
    has the heading, and as many cards as the response had citations. *)
Theorem sources_block_per_assistant_message (l : list (Event * Env)) :
  map texts (by_tag "h3" (render (session l))) =
    map (fun _ => [lit "Sources:"])
      (filter (fun m => isType m MessageType.assistant)
         (messages (session l))) /\
  (forall t r,
     map texts (by_tag "h3" (renderMessage (aiMessageOf t r))) =
       [[lit "Sources:"]] /\
     List.length (by_tag "a" (renderMessage (aiMessageOf t r))) =
       List.length (api.citations r)).
Proof.
  split.
  - rewrite by_tag_h3_render. apply exchanges_blocks.
    apply session_from_exchanges. constructor.
  - intros t r. rewrite by_tag_h3_message, by_tag_a_message.
    cbn [aiMessageOf sources]. split; [reflexivity|].
    unfold mapi. generalize 0%nat.
    induction (api.citations r) as [|c cs IH]; intros i; simpl;
      [reflexivity|]. now rewrite IH.
Qed.
